(** * github-repo-crawler-KTPM: queue, batch persister, breaker, coordinator

    A shallow embedding of the load-levelling queue
    ([ex2_queue/internal/queue/commit_queue.go] and its release twin), of the
    batch persister [CommitUsecase.BatchCreate]
    ([baseline/internal/scrape/commit_scrape.go], package [usecase]), of the
    circuit-breaker settings ([ex3_gobreaker/internal/utils/breaker_utils.go])
    and of the crawling coordinator (package [service]).

    Conventions.
    - Go's [int] and [int64] are 64-bit two's-complement integers; they are
      modelled as [Z], and the additions on the counters a struct keeps
      across calls have their wrap-around written out ([wrap64]).  [len] of
      a slice is the length of the list as a [Z]; a local counter that
      counts the iterations over one slice stays below that length and is
      not wrapped.
    - Code that runs under a mutex is one atomic function of the state.
    - Collaborators the repository only calls (the gorm database handle, the
      HTTP endpoints) are explicit stores and oracles: each call of the
      embedded function receives the outcome the collaborator gives. *)

From Stdlib Require Import ZArith QArith Lia.
From stdpp Require Import base numbers list strings gmap.

Local Open Scope Z_scope.

(** Two's-complement wrap-around of a 64-bit signed addition. *)
Definition wrap64 (z : Z) : Z := (z + 2 ^ 63) mod 2 ^ 64 - 2 ^ 63.

Definition len {A : Type} (l : list A) : Z := Z.of_nat (length l).

(* ===================================================================== *)
(** * The bounded queue (package [queue]) *)
(* ===================================================================== *)

Module Queue.

(** [QueueMetrics]: the two durations are declared and never written. *)
Record QueueMetrics : Type := mkMetrics {
  EnqueueCount : Z;
  DequeueCount : Z;
  ProcessingTime : Z;
  WaitTime : Z;
  MaxQueueLength : Z
}.

Section BoundedQueue.

(** [*model.CreateCommitRequest] for [CommitQueue],
    [*model.CreateReleaseRequest] for [ReleaseQueue]: the two files are the
    same text up to that type and the words Commit/Release. *)
Context {Item : Type}.

Record CommitQueue : Type := mkQueue {
  items : list Item;
  maxSize : Z;
  metrics : QueueMetrics;
  processing : Z
}.

(** The queue [NewCommitQueueProcessor] builds: no items, zero metrics. *)
Definition NewCommitQueue (maxSize : Z) : CommitQueue :=
  {| items := []; maxSize := maxSize;
     metrics := mkMetrics 0 0 0 0 0; processing := 0 |}.

(** [p.queue.maxSize > 0 && len(p.queue.items) >= p.queue.maxSize] *)
Definition is_full (q : CommitQueue) : bool :=
  (0 <? maxSize q) && (maxSize q <=? len (items q)).

(** The state after the append branch of [EnqueueCommit]. *)
Definition enqueued (q : CommitQueue) (request : Item) : CommitQueue :=
  let items' := items q ++ [request] in
  let m := metrics q in
  let count' := wrap64 (EnqueueCount m + 1) in
  let max' := if MaxQueueLength m <? len items' then len items'
              else MaxQueueLength m in
  {| items := items'; maxSize := maxSize q;
     metrics := mkMetrics count' (DequeueCount m) (ProcessingTime m)
                          (WaitTime m) max';
     processing := processing q |}.

(** [EnqueueCommit] / [EnqueueRelease]: reject when full, else append. *)
Definition EnqueueCommit (q : CommitQueue) (request : Item)
  : CommitQueue * bool :=
  if is_full q then (q, false) else (enqueued q request, true).


(** What one evaluation of [dequeueCommits] under the mutex comes to. *)
Inductive DequeueResult : Type :=
| DqNil                      (* context cancelled: [return nil] *)
| DqWait                     (* empty, not cancelled: parked in [cond.Wait] *)
| DqPanic                    (* [make] with a negative length *)
| DqItems (batch : list Item).

(** [count := maxCount; if count > len(items) { count = len(items) }] *)
Definition take_count (q : CommitQueue) (maxCount : Z) : Z :=
  if len (items q) <? maxCount then len (items q) else maxCount.

(** The state after the copy-and-reslice part of [dequeueCommits]. *)
Definition dequeued (q : CommitQueue) (count : Z) : CommitQueue :=
  let m := metrics q in
  {| items := drop (Z.to_nat count) (items q); maxSize := maxSize q;
     metrics := mkMetrics (EnqueueCount m) (wrap64 (DequeueCount m + count))
                          (ProcessingTime m) (WaitTime m) (MaxQueueLength m);
     processing := wrap64 (processing q + count) |}.

(** [dequeueCommits] / [dequeueReleases], from its entry to its return or
    to [cond.Wait].  [ctxDone] says whether [p.ctx.Done()] is closed.  On an
    empty queue the caller either returns nil (cancelled) or parks on the
    condition variable. *)
Definition dequeueCommits (q : CommitQueue) (ctxDone : bool) (maxCount : Z)
  : CommitQueue * DequeueResult :=
  match items q with
  | [] => (q, if ctxDone then DqNil else DqWait)
  | _ :: _ =>
      let count := take_count q maxCount in
      if count <? 0 then (q, DqPanic)
      else (dequeued q count, DqItems (take (Z.to_nat count) (items q)))
  end.

(** A parked caller that is woken, on the state it finds: it checks the
    context first, and returns nil when it is cancelled whatever the queue
    holds; otherwise it goes round the loop again. *)
Definition resumeDequeue (q : CommitQueue) (ctxDone : bool) (maxCount : Z)
  : CommitQueue * DequeueResult :=
  if ctxDone then (q, DqNil) else dequeueCommits q false maxCount.

(** The worker after [processCommits]:
    [p.queue.processing -= len(commits)]. *)
Definition finishBatch (q : CommitQueue) (n : Z) : CommitQueue :=
  {| items := items q; maxSize := maxSize q; metrics := metrics q;
     processing := wrap64 (processing q - n) |}.

(** Sequences of queue operations: everything that writes the queue. *)
Inductive QueueOp : Type :=
| OpEnqueue (request : Item)
| OpDequeue (ctxDone : bool) (maxCount : Z)
| OpResume (ctxDone : bool) (maxCount : Z)
| OpFinish (n : Z).

Definition apply_op (q : CommitQueue) (op : QueueOp) : CommitQueue :=
  match op with
  | OpEnqueue request => fst (EnqueueCommit q request)
  | OpDequeue ctxDone maxCount => fst (dequeueCommits q ctxDone maxCount)
  | OpResume ctxDone maxCount => fst (resumeDequeue q ctxDone maxCount)
  | OpFinish n => finishBatch q n
  end.

Definition run (q : CommitQueue) (ops : list QueueOp) : CommitQueue :=
  fold_left apply_op ops q.

(** The capacity invariant. *)
Definition bounded (q : CommitQueue) : Prop :=
  0 < maxSize q -> len (items q) <= maxSize q.

End BoundedQueue.

Arguments CommitQueue : clear implicits.
Arguments DequeueResult : clear implicits.
Arguments QueueOp : clear implicits.

(** Three requests offered to a queue of capacity 2. *)
Definition two_of_three : CommitQueue string :=
  run (NewCommitQueue 2) [OpEnqueue "a"; OpEnqueue "b"; OpEnqueue "c"].

End Queue.

(* ===================================================================== *)
(** * The batch persister (package [usecase], [CommitUsecase.BatchCreate]) *)
(* ===================================================================== *)

Module Persist.

(** [model.CreateCommitRequest].  A request is the value behind the pointer
    the slice holds; the producers of this repository build each one with
    [&model.CreateCommitRequest{...}], so no element is nil. *)
Record CreateCommitRequest : Type := mkRequest {
  Hash : string;
  Message : string;
  ReleaseID : Z
}.

(** [entity.Commit] (the [Release] association is not read here). *)
Record Commit : Type := mkCommit {
  commit_ID : Z;
  commit_Hash : string;
  commit_Message : string;
  commit_ReleaseID : Z
}.

(** [model.CommitResponse]. *)
Record CommitResponse : Type := mkResponse {
  resp_ID : Z;
  resp_Hash : string;
  resp_Message : string;
  resp_ReleaseID : Z
}.

(** [entity.Commit{Hash: req.Hash, Message: req.Message, ReleaseID: ...}]:
    the ID is the zero value until the database assigns one. *)
Definition toEntity (req : CreateCommitRequest) : Commit :=
  mkCommit 0 (Hash req) (Message req) (ReleaseID req).

Definition toResponse (c : Commit) : CommitResponse :=
  mkResponse (commit_ID c) (commit_Hash c) (commit_Message c)
             (commit_ReleaseID c).

(** ** The store behind [*gorm.DB]

    The commits table is a list of rows in insertion order and the next
    primary key.  The table declares no uniqueness on (hash, release). *)
Record DB : Type := mkDB {
  rows : list Commit;
  next_id : Z
}.

(** A successful [Create]: the row is stored under a fresh key, and gorm
    writes that key back into the value it was given. *)
Definition db_create (db : DB) (c : Commit) : DB * Commit :=
  let c' := mkCommit (next_id db) (commit_Hash c) (commit_Message c)
                     (commit_ReleaseID c) in
  (mkDB (rows db ++ [c']) (next_id db + 1), c').

(** A successful [CreateInBatches]: every row in order. *)
Fixpoint db_create_all (db : DB) (cs : list Commit) : DB * list Commit :=
  match cs with
  | [] => (db, [])
  | c :: rest =>
      let '(db1, c') := db_create db c in
      let '(db2, rest') := db_create_all db1 rest in
      (db2, c' :: rest')
  end.

(** [Where("hash IN ? AND release_id = ?", hashes, releaseID).Find] *)
Definition db_find (db : DB) (hashes : list string) (releaseID : Z)
  : list Commit :=
  filter (λ c, commit_Hash c ∈ hashes ∧ commit_ReleaseID c = releaseID)
         (rows db).

(** [Where("release_id = ?", releaseID).Find] *)
Definition db_find_by_release (db : DB) (releaseID : Z) : list Commit :=
  filter (λ c, commit_ReleaseID c = releaseID) (rows db).

(** What the database answers during one call of [BatchCreate]: which of
    its statements fail.  [create_err i] is the outcome of the individual
    insert of [newRequests[i]]. *)
Record Faults : Type := mkFaults {
  find_err : bool;
  batch_err : bool;
  commit_err : bool;
  rollback_err : bool;
  create_err : nat -> bool;
  refetch_err : bool
}.

Definition no_faults : Faults :=
  mkFaults false false false false (λ _, false) false.

(** The statements [BatchCreate] sends, in order. *)
Inductive DbOp : Type :=
| OpBegin
| OpFind (hashes : list string) (releaseID : Z)
| OpRollback
| OpCreateInBatches (commits : list Commit) (batchSize : Z)
| OpCommit
| OpCreate (commit : Commit)
| OpFindByRelease (releaseID : Z).

(** The log lines [BatchCreate] writes, with their fields. *)
Inductive LogEntry : Type :=
| DebugSample (index : nat) (hash : string) (message_length release_id : Z)
| WarnCheckExisting
| InfoFiltered (total_commits existing_commits new_commits : Z)
| WarnRollback
| ErrorBatchCreate
| InfoTryIndividual
| WarnIndividualFailed (hash : string)
| InfoIndividualResults (success_count error_count : Z)
| ErrorRetrieve
| ErrorCommitTx
| InfoSaved (commit_count : Z).

Inductive error : Type :=
| ErrCommitTx      (* [tx.Commit().Error] *)
| ErrRetrieve.     (* the final [Find] of the fallback path *)

(** How a call ends: [return responses, nil], [return nil, err], or a
    run-time panic (a goroutine that panics ends the process). *)
Inductive Result : Type :=
| Returned (responses : list CommitResponse)
| Failed (err : error)
| Panicked.

Record Outcome : Type := mkOutcome {
  out_db : DB;
  out_result : Result;
  out_ops : list DbOp;
  out_log : list LogEntry
}.

(** [sampleSize := min(3, len(requests))] and the debug loop. *)
Fixpoint samples (i : nat) (requests : list CreateCommitRequest)
  : list LogEntry :=
  match requests with
  | [] => []
  | req :: rest =>
      DebugSample i (Hash req) (Z.of_nat (String.length (Message req)))
                  (ReleaseID req) :: samples (S i) rest
  end.

Definition sample_log (requests : list CreateCommitRequest) : list LogEntry :=
  samples 0 (take 3 requests).

(** The rows the existence query yields.  Its error is logged and the
    code goes on ("Continue anyway - this is just to avoid duplicates")
    with the slice still empty. *)
Definition existingCommits (f : Faults) (db : DB)
    (requests : list CreateCommitRequest) : list Commit :=
  match requests with
  | [] => []
  | first :: _ =>
      if find_err f then []
      else db_find db (map Hash requests) (ReleaseID first)
  end.

(** [existingMap[commit.Hash] = true] for every row found. *)
Definition existingMap (existing : list Commit) : gmap string bool :=
  foldl (λ m c, <[commit_Hash c := true]> m) ∅ existing.

(** [existingMap[req.Hash]]: a missing key reads as [false]. *)
Definition is_existing (m : gmap string bool) (req : CreateCommitRequest)
  : bool :=
  default false (m !! Hash req).

(** [newRequests]: the requests whose hash is not in the map. *)
Definition newRequests (f : Faults) (db : DB)
    (requests : list CreateCommitRequest) : list CreateCommitRequest :=
  let m := existingMap (existingCommits f db requests) in
  filter (λ req, is_existing m req = false) requests.

(** ** The per-record fallback

    The goroutines update the two counters under one mutex and the caller
    waits for all of them, so the counters do not depend on the
    interleaving; the inserts are taken in index order.  The counters count
    iterations over a slice and cannot leave the range of [int].
    [commit.Hash[:8]] in the failure log panics on a hash shorter than 8
    bytes. *)
Record Fallback : Type := mkFallback {
  fb_db : DB;
  fb_success : Z;
  fb_errors : Z;
  fb_ops : list DbOp;
  fb_log : list LogEntry
}.

Inductive FallbackResult : Type :=
| FbDone (st : Fallback)
| FbPanic (st : Fallback).

Definition fb_state (r : FallbackResult) : Fallback :=
  match r with FbDone st | FbPanic st => st end.

Fixpoint individual_inserts (f : Faults) (i : nat)
    (reqs : list CreateCommitRequest) (st : Fallback) : FallbackResult :=
  match reqs with
  | [] => FbDone st
  | request :: rest =>
      let commit := toEntity request in
      let ops' := fb_ops st ++ [OpCreate commit] in
      if create_err f i then
        let st' := mkFallback (fb_db st) (fb_success st) (fb_errors st + 1)
                              ops' (fb_log st) in
        if (String.length (commit_Hash commit) <? 8)%nat then FbPanic st'
        else
          individual_inserts f (S i) rest
            (mkFallback (fb_db st) (fb_success st) (fb_errors st + 1) ops'
               (fb_log st ++
                [WarnIndividualFailed
                   (String.substring 0 8 (commit_Hash commit) +:+ "...")]))
      else
        individual_inserts f (S i) rest
          (mkFallback (fst (db_create (fb_db st) commit))
                      (fb_success st + 1) (fb_errors st) ops' (fb_log st))
  end.

(** The branch of [BatchCreate] taken when [CreateInBatches] fails.
    [ops] and [log] are what the call has sent and written so far. *)
Definition fallback (f : Faults) (db : DB)
    (newReqs : list CreateCommitRequest) (releaseID : Z)
    (ops : list DbOp) (log : list LogEntry) : Outcome :=
  let ops1 := ops ++ [OpRollback; OpBegin] in
  let log1 := log ++ [ErrorBatchCreate; InfoTryIndividual] in
  match individual_inserts f 0 newReqs (mkFallback db 0 0 ops1 log1) with
  | FbPanic st => mkOutcome (fb_db st) Panicked (fb_ops st) (fb_log st)
  | FbDone st =>
      let log2 := fb_log st ++
                  [InfoIndividualResults (fb_success st) (fb_errors st)] in
      let ops2 := fb_ops st ++ [OpFindByRelease releaseID] in
      if refetch_err f then
        mkOutcome (fb_db st) (Failed ErrRetrieve)
                  (ops2 ++ [OpRollback; OpRollback]) (log2 ++ [ErrorRetrieve])
      else
        mkOutcome (fb_db st)
                  (Returned
                     (map toResponse (db_find_by_release (fb_db st) releaseID)))
                  (ops2 ++ [OpRollback; OpRollback]) log2
  end.

(** [BatchCreate].  The last [OpRollback] of a trace is the deferred one. *)
Definition BatchCreate (f : Faults) (db : DB)
    (requests : list CreateCommitRequest) : Outcome :=
  match requests with
  | [] => mkOutcome db (Returned []) [] []
  | first :: _ =>
      let existing := existingCommits f db requests in
      let newReqs := newRequests f db requests in
      let ops := [OpBegin; OpFind (map Hash requests) (ReleaseID first)] in
      let log := sample_log requests
                 ++ (if find_err f then [WarnCheckExisting] else [])
                 ++ [InfoFiltered (len requests) (len existing) (len newReqs)] in
      match newReqs with
      | [] =>
          mkOutcome db (Returned []) (ops ++ [OpRollback; OpRollback])
                    (log ++ if rollback_err f then [WarnRollback] else [])
      | firstNew :: _ =>
          let commits := map toEntity newReqs in
          let ops1 := ops ++ [OpCreateInBatches commits 50] in
          if batch_err f then
            fallback f db newReqs (ReleaseID firstNew) ops1 log
          else if commit_err f then
            mkOutcome db (Failed ErrCommitTx)
                      (ops1 ++ [OpCommit; OpRollback]) (log ++ [ErrorCommitTx])
          else
            let '(db', saved) := db_create_all db commits in
            mkOutcome db' (Returned (map toResponse saved))
                      (ops1 ++ [OpCommit; OpRollback])
                      (log ++ [InfoSaved (len saved)])
      end
  end.

(** What the outcome counts of the spec read off a call: the requests
    classified as already present, and whether any insert statement was
    sent. *)
Definition deduplicated (f : Faults) (db : DB)
    (requests : list CreateCommitRequest) : Z :=
  len requests - len (newRequests f db requests).

Definition is_insert (op : DbOp) : bool :=
  match op with
  | OpCreateInBatches _ _ | OpCreate _ => true
  | _ => false
  end.

Definition is_failure_line (e : LogEntry) : bool :=
  match e with WarnIndividualFailed _ => true | _ => false end.

(** The number of "Individual commit insert failed" lines of a log. *)
Definition individual_failures (log : list LogEntry) : Z :=
  len (List.filter is_failure_line log).

(** Sample data: two releases, and hashes of 12 and of 3 bytes. *)
Definition req_a1 : CreateCommitRequest := mkRequest "aaaaaaaaaaaa" "first" 1.
Definition req_b2 : CreateCommitRequest := mkRequest "bbbbbbbbbbbb" "second" 2.
Definition req_short : CreateCommitRequest := mkRequest "abc" "short" 1.
Definition empty_db : DB := mkDB [] 1.
Definition find_fails : Faults :=
  mkFaults true false false false (λ _, false) false.
Definition batch_fails : Faults :=
  mkFaults false true false false (λ _, false) false.
Definition inserts_fail : Faults :=
  mkFaults false true false false (λ _, true) false.

(** ** Notions the properties are stated with *)

(** Row [c'] carries the data of [c], under whatever key. *)
Definition same_data (c c' : Commit) : Prop :=
  commit_Hash c' = commit_Hash c /\ commit_Message c' = commit_Message c
  /\ commit_ReleaseID c' = commit_ReleaseID c.

(** The table holds a row with the hash of [req] under release [rid]. *)
Definition present_under (db : DB) (rid : Z) (req : CreateCommitRequest)
  : Prop :=
  exists c, c ∈ rows db /\ commit_Hash c = Hash req /\ commit_ReleaseID c = rid.

(** What every call on a non-empty batch sends and logs first. *)
Definition head_ops (first : CreateCommitRequest)
    (rest : list CreateCommitRequest) : list DbOp :=
  [OpBegin; OpFind (map Hash (first :: rest)) (ReleaseID first)].

Definition head_log (f : Faults) (db : DB)
    (requests : list CreateCommitRequest) : list LogEntry :=
  sample_log requests
  ++ (if find_err f then [WarnCheckExisting] else [])
  ++ [InfoFiltered (len requests) (len (existingCommits f db requests))
                   (len (newRequests f db requests))].

(** The insert statement that follows the query, if any request is new. *)
Definition batch_op (newReqs : list CreateCommitRequest) : list DbOp :=
  match newReqs with
  | [] => []
  | _ :: _ => [OpCreateInBatches (map toEntity newReqs) 50]
  end.

(** The state in which the fallback loop starts. *)
Definition fb_start (db : DB) (ops : list DbOp) (log : list LogEntry)
  : Fallback :=
  mkFallback db 0 0 (ops ++ [OpRollback; OpBegin])
             (log ++ [ErrorBatchCreate; InfoTryIndividual]).

(** A table that holds the commit of release 2 only. *)
Definition release2_db : DB :=
  mkDB [mkCommit 1 "bbbbbbbbbbbb" "second" 2] 2.

(** A further commit of release 2. *)
Definition req_c2 : CreateCommitRequest := mkRequest "cccccccccccc" "third" 2.

End Persist.

(* ===================================================================== *)
(** * The circuit breaker (package [utils], over [sony/gobreaker]) *)
(* ===================================================================== *)

Module Breaker.

(** The fields of [gobreaker.Counts] that [ReadyToTrip] reads. *)
Record Counts : Type := mkCounts {
  Requests : Z;
  TotalFailures : Z
}.

(** [time.Second], and the settings [NewCircuitBreaker] passes on. *)
Definition Second : Z := 1000000000.
Definition MaxRequests : Z := 3.
Definition Interval : Z := 10 * Second.
Definition Timeout : Z := 30 * Second.

(** [float64(counts.TotalFailures) / float64(counts.Requests)], as a
    rational.  The counters are 32-bit, so both conversions are exact and the
    quotient is correctly rounded; a ratio that is not 3/5 differs from it by
    at least 1/(5 * 2^32), far more than the rounding of a double, so the
    comparison with the literal [0.6] gives what the comparison of the exact
    ratio with 6/10 gives.  With no request the quotient is NaN or an
    infinity in Go and 0 here; [ReadyToTrip] is false in both readings since
    its first conjunct is. *)
Definition failureRatio (counts : Counts) : Q :=
  (inject_Z (TotalFailures counts) / inject_Z (Requests counts))%Q.

(** [counts.Requests >= 3 && failureRatio >= 0.6] *)
Definition ReadyToTrip (counts : Counts) : bool :=
  (3 <=? Requests counts) && Qle_bool (6 # 10) (failureRatio counts).

(** Modelled from the spec: the three states of a breaker. *)
Inductive CircuitState : Type := Closed | Open | HalfOpen.

(** Modelled from the spec: the state of [gobreaker.CircuitBreaker], whose
    source is a dependency and not part of this repository.  The rolling
    counts, the time the breaker opened, the start of the current rolling
    window and the successes of the current half-open trial. *)
Record CircuitBreaker : Type := mkBreaker {
  state : CircuitState;
  counts : Counts;
  openedAt : Z;
  windowStart : Z;
  probeSuccesses : Z
}.

(** Modelled from the spec: a breaker starts Closed with zero counts. *)
Definition NewCircuitBreaker (now : Z) : CircuitBreaker :=
  mkBreaker Closed (mkCounts 0 0) 0 now 0.

(** Modelled from the spec: what [Execute] gives back, the circuit-open
    error without a call of the wrapped function, or the outcome of the
    call it made. *)
Inductive ExecResult : Type :=
| ErrOpenState
| Invoked (ok : bool).

(** Modelled from the spec: the outcome of a call is recorded in the
    rolling counts. *)
Definition onOutcome (c : Counts) (ok : bool) : Counts :=
  mkCounts (Requests c + 1)
           (if ok then TotalFailures c else TotalFailures c + 1).

(** Modelled from the spec: a call in the Closed state.  Counts are reset
    at a rolling interval boundary (here: when a call arrives [Interval] or
    more after the window began, and the window begins anew at that call);
    the outcome is recorded and the trip rule applied. *)
Definition execClosed (cb : CircuitBreaker) (now : Z) (ok : bool)
  : CircuitBreaker :=
  let expired := windowStart cb + Interval <=? now in
  let c0 := if expired then mkCounts 0 0 else counts cb in
  let w := if expired then now else windowStart cb in
  let c := onOutcome c0 ok in
  if ReadyToTrip c then mkBreaker Open c now w 0
  else mkBreaker Closed c (openedAt cb) w 0.

(** Modelled from the spec: a trial call in the HalfOpen state.  Any
    failure reopens the breaker; [MaxRequests] consecutive successes close
    it, with fresh counts. *)
Definition execHalfOpen (cb : CircuitBreaker) (now : Z) (ok : bool)
  : CircuitBreaker :=
  if ok then
    if MaxRequests <=? probeSuccesses cb + 1
    then mkBreaker Closed (mkCounts 0 0) (openedAt cb) now 0
    else mkBreaker HalfOpen (onOutcome (counts cb) ok) (openedAt cb)
                   (windowStart cb) (probeSuccesses cb + 1)
  else mkBreaker Open (onOutcome (counts cb) ok) now (windowStart cb) 0.

(** Modelled from the spec: [CircuitBreakerWrapper.Execute], which hands
    [fn] to the library.  [ok] is what [fn] answers if it is called. *)
Definition Execute (cb : CircuitBreaker) (now : Z) (ok : bool)
  : CircuitBreaker * ExecResult :=
  match state cb with
  | Open =>
      if now <? openedAt cb + Timeout then (cb, ErrOpenState)
      else
        let half := mkBreaker HalfOpen (mkCounts 0 0) (openedAt cb)
                              (windowStart cb) 0 in
        (execHalfOpen half now ok, Invoked ok)
  | Closed => (execClosed cb now ok, Invoked ok)
  | HalfOpen => (execHalfOpen cb now ok, Invoked ok)
  end.

(** A sequence of calls, each with its time and the answer of [fn]. *)
Fixpoint run_calls (cb : CircuitBreaker) (calls : list (Z * bool))
  : CircuitBreaker * list ExecResult :=
  match calls with
  | [] => (cb, [])
  | (now, ok) :: rest =>
      let '(cb1, r) := Execute cb now ok in
      let '(cb2, rs) := run_calls cb1 rest in
      (cb2, r :: rs)
  end.


End Breaker.

(* ===================================================================== *)
(** * The crawling coordinator (package [service]) *)
(* ===================================================================== *)

Module Coordinator.

Inductive Stage : Type := Repo | Release | Commit.

(** What a cycle does that is seen from outside: the calls of
    [CrawlRepos], [CrawlReleases] and [CrawlCommits], and the log lines. *)
Inductive Event : Type :=
| Called (s : Stage)
| Logged (msg : string).

Section Coordinator.

(** The decoded JSON payloads other than nil, and [json.Marshal] on an
    [interface{}] (nil included). *)
Context {Data : Type}.
Variable marshal : option Data -> string.

(** What a [Crawl*] method returns: an error (of the endpoint, or the
    breaker's), or the decoded payload, nil for the JSON value null. *)
Inductive Reply : Type :=
| ReplyErr
| ReplyOk (data : option Data).

(** The answers the three methods give during one cycle, if called. *)
Record Replies : Type := mkReplies {
  repoReply : Reply;
  releaseReply : Reply;
  commitReply : Reply
}.

(** [CrawlingCoordinator], without the HTTP client and the breakers, which
    sit behind the [Crawl*] methods. *)
Record CrawlingCoordinator : Type := mkCoordinator {
  repoCache : option Data;
  releaseCache : option Data;
  commitCache : option Data;
  repoNoChangeCount : Z;
  releaseNoChangeCount : Z;
  commitNoChangeCount : Z;
  repoPaused : bool;
  releasePaused : bool;
  commitPaused : bool;
  stabilityThreshold : Z
}.

Definition NewCrawlingCoordinator : CrawlingCoordinator :=
  mkCoordinator None None None 0 0 0 false false false 3.

(** [hasDataChanged]: no previous data counts as a change; otherwise the
    two JSON texts are compared. *)
Definition hasDataChanged (previous current : option Data) : bool :=
  match previous with
  | None => true
  | Some _ => negb (String.eqb (marshal previous) (marshal current))
  end.

Definition is_nil (d : option Data) : bool :=
  match d with None => true | Some _ => false end.

(** Step 1 of [CrawlAll]: the state, [repoChanged] and the events. *)
Definition crawlStep1 (c : CrawlingCoordinator) (env : Replies)
  : CrawlingCoordinator * bool * list Event :=
  if is_nil (repoCache c) then
    match repoReply env with
    | ReplyErr =>
        (c, false,
         [Logged "Starting repository crawling (one-time)..."; Called Repo;
          Logged "Error crawling repositories"])
    | ReplyOk repoData =>
        (mkCoordinator repoData (releaseCache c) (commitCache c)
           (repoNoChangeCount c) 0 (commitNoChangeCount c)
           (repoPaused c) false (commitPaused c) (stabilityThreshold c),
         true,
         [Logged "Starting repository crawling (one-time)..."; Called Repo;
          Logged "Repository data successfully fetched"])
    end
  else
    (c, false,
     [Logged "Repository data already fetched, skipping repo API call"]).

(** [(repoChanged || c.releaseCache == nil) && !c.releasePaused] *)
Definition shouldCrawlReleases (c : CrawlingCoordinator) (repoChanged : bool)
  : bool :=
  (repoChanged || is_nil (releaseCache c)) && negb (releasePaused c).

(** Step 2 of [CrawlAll]: the state, [releaseChanged] and the events. *)
Definition crawlStep2 (c : CrawlingCoordinator) (repoChanged : bool)
    (env : Replies) : CrawlingCoordinator * bool * list Event :=
  if negb (shouldCrawlReleases c repoChanged) then
    (c, false,
     [Logged (if releasePaused c then "Release API is stable, skipping call"
              else "Skipping release crawling, no repo changes")])
  else
    match releaseReply env with
    | ReplyErr =>
        (c, false,
         [Logged "Starting release crawling..."; Called Release;
          Logged "Error crawling releases"])
    | ReplyOk releaseData =>
        if hasDataChanged (releaseCache c) releaseData then
          (mkCoordinator (repoCache c) releaseData (commitCache c)
             (repoNoChangeCount c) 0 0
             (repoPaused c) (releasePaused c) false (stabilityThreshold c),
           true,
           [Logged "Starting release crawling..."; Called Release;
            Logged "Release data has changed"])
        else
          let n := wrap64 (releaseNoChangeCount c + 1) in
          let pause := stabilityThreshold c <=? n in
          (mkCoordinator (repoCache c) (releaseCache c) (commitCache c)
             (repoNoChangeCount c) n (commitNoChangeCount c)
             (repoPaused c) (if pause then true else releasePaused c)
             (commitPaused c) (stabilityThreshold c),
           false,
           [Logged "Starting release crawling..."; Called Release;
            Logged "No changes in release data"]
           ++ if pause
              then [Logged "Release API has been stable for multiple checks, pausing calls"]
              else [])
    end.

(** [(releaseChanged || c.commitCache == nil) && !c.commitPaused] *)
Definition shouldCrawlCommits (c : CrawlingCoordinator) (releaseChanged : bool)
  : bool :=
  (releaseChanged || is_nil (commitCache c)) && negb (commitPaused c).

(** Step 3 of [CrawlAll]. *)
Definition crawlStep3 (c : CrawlingCoordinator) (releaseChanged : bool)
    (env : Replies) : CrawlingCoordinator * list Event :=
  if negb (shouldCrawlCommits c releaseChanged) then
    (c, [Logged (if commitPaused c then "Commit API is stable, skipping call"
                 else "Skipping commit crawling, no release changes")])
  else
    match commitReply env with
    | ReplyErr =>
        (c, [Logged "Starting commit crawling..."; Called Commit;
             Logged "Error crawling commits"])
    | ReplyOk commitData =>
        if hasDataChanged (commitCache c) commitData then
          (mkCoordinator (repoCache c) (releaseCache c) commitData
             (repoNoChangeCount c) (releaseNoChangeCount c) 0
             (repoPaused c) (releasePaused c) (commitPaused c)
             (stabilityThreshold c),
           [Logged "Starting commit crawling..."; Called Commit;
            Logged "Commit data has changed"])
        else
          let n := wrap64 (commitNoChangeCount c + 1) in
          let pause := stabilityThreshold c <=? n in
          (mkCoordinator (repoCache c) (releaseCache c) (commitCache c)
             (repoNoChangeCount c) (releaseNoChangeCount c) n
             (repoPaused c) (releasePaused c)
             (if pause then true else commitPaused c) (stabilityThreshold c),
           [Logged "Starting commit crawling..."; Called Commit;
            Logged "No changes in commit data"]
           ++ if pause
              then [Logged "Commit API has been stable for multiple checks, pausing calls"]
              else [])
    end.

(** [CrawlAll]: each goroutine is joined before the next step starts, so
    the three steps run one after the other. *)
Definition CrawlAll (c : CrawlingCoordinator) (env : Replies)
  : CrawlingCoordinator * list Event :=
  let '(c1, repoChanged, t1) := crawlStep1 c env in
  let '(c2, releaseChanged, t2) := crawlStep2 c1 repoChanged env in
  let '(c3, t3) := crawlStep3 c2 releaseChanged env in
  (c3, t1 ++ t2 ++ t3 ++
       [Logged (if releasePaused c3 && commitPaused c3
                then "All dependent APIs are stable, monitoring for changes"
                else "Crawling cycle completed")]).

(** [ForceReactivateAll] *)
Definition ForceReactivateAll (c : CrawlingCoordinator) : CrawlingCoordinator :=
  mkCoordinator None (releaseCache c) (commitCache c) 0 0 0
                (repoPaused c) false false (stabilityThreshold c).

(** [SetStabilityThreshold] *)
Definition SetStabilityThreshold (c : CrawlingCoordinator) (threshold : Z)
  : CrawlingCoordinator :=
  let threshold := if threshold <? 1 then 1 else threshold in
  mkCoordinator (repoCache c) (releaseCache c) (commitCache c)
                (repoNoChangeCount c) (releaseNoChangeCount c)
                (commitNoChangeCount c) (repoPaused c) (releasePaused c)
                (commitPaused c) threshold.

(** What the [select] of [StartPeriodicCrawling] receives: a tick of the
    ticker (with the answers the endpoints give in the cycle it starts) or
    the stop signal. *)
Inductive Wakeup : Type :=
| Tick (env : Replies)
| Stop.

Record PeriodicRun : Type := mkRun {
  final : CrawlingCoordinator;
  cycles : list (list Event);      (* the events of each [CrawlAll] *)
  stopped : bool                   (* the loop has returned *)
}.

(** [StartPeriodicCrawling]: the ticker is created, then the loop selects.
    When the wake-ups run out the loop is blocked in [select]. *)
Fixpoint StartPeriodicCrawling (c : CrawlingCoordinator) (wakeups : list Wakeup)
  : PeriodicRun :=
  match wakeups with
  | [] => mkRun c [] false
  | Stop :: _ => mkRun c [] true
  | Tick env :: rest =>
      let '(c1, t) := CrawlAll c env in
      let r := StartPeriodicCrawling c1 rest in
      mkRun (final r) (t :: cycles r) (stopped r)
  end.

(** [startCircuitBreakerCoordinator] of [cmd/main.go]: "Initial crawl to
    populate caches", then the periodic loop. *)
Definition startCircuitBreakerCoordinator (env0 : Replies)
    (wakeups : list Wakeup) : PeriodicRun :=
  let '(c1, t) := CrawlAll NewCrawlingCoordinator env0 in
  let r := StartPeriodicCrawling c1 wakeups in
  mkRun (final r) (t :: cycles r) (stopped r).

Definition is_call (s : Stage) (e : Event) : bool :=
  match e, s with
  | Called Repo, Repo | Called Release, Release | Called Commit, Commit => true
  | _, _ => false
  end.

(** How often a stage was called in a trace. *)
Definition calls (s : Stage) (t : list Event) : nat :=
  length (List.filter (is_call s) t).


End Coordinator.

Arguments Reply : clear implicits.
Arguments Replies : clear implicits.
Arguments CrawlingCoordinator : clear implicits.
Arguments Wakeup : clear implicits.
Arguments PeriodicRun : clear implicits.

(** Payloads as JSON text, for the examples: a payload is marshalled to
    itself and nil to the text null. *)
Definition marshal_text (d : option string) : string :=
  match d with None => "null" | Some s => s end.

(** A coordinator whose three stages are cached and whose release and
    commit stages are paused. *)
Definition cached_and_paused : CrawlingCoordinator string :=
  mkCoordinator (Some "repos") (Some "releases") (Some "commits")
                0 3 3 false true true 3.

(** Endpoints that answer what is cached. *)
Definition same_answers : Replies string :=
  mkReplies (ReplyOk (Some "repos")) (ReplyOk (Some "releases"))
            (ReplyOk (Some "commits")).

End Coordinator.

(* ===================================================================== *)
(** * What goes into and comes out of a queue *)
(* ===================================================================== *)

Module Flow.

Import Queue.

Section Flow.

Context {Item : Type}.

(** The requests a run has accepted and the requests its dequeues have
    handed to workers, both in order. *)
Record Moved : Type := mkMoved {
  accepted : list Item;
  delivered : list Item
}.

Definition deliver (m : Moved) (r : DequeueResult Item) : Moved :=
  match r with
  | DqItems batch => mkMoved (accepted m) (delivered m ++ batch)
  | _ => m
  end.

Definition apply_io (st : CommitQueue Item * Moved) (op : QueueOp Item)
  : CommitQueue Item * Moved :=
  let '(q, m) := st in
  match op with
  | OpEnqueue request =>
      let '(q', ok) := EnqueueCommit q request in
      (q', if ok then mkMoved (accepted m ++ [request]) (delivered m) else m)
  | OpDequeue ctxDone maxCount =>
      let '(q', r) := dequeueCommits q ctxDone maxCount in (q', deliver m r)
  | OpResume ctxDone maxCount =>
      let '(q', r) := resumeDequeue q ctxDone maxCount in (q', deliver m r)
  | OpFinish n => (finishBatch q n, m)
  end.

Definition run_io (q : CommitQueue Item) (ops : list (QueueOp Item))
  : CommitQueue Item * Moved :=
  fold_left apply_io ops (q, mkMoved [] []).


(** The high-water mark covers the queue and stays within the capacity. *)
Definition high_water (q : CommitQueue Item) : Prop :=
  len (items q) <= MaxQueueLength (metrics q) /\
  (0 < maxSize q -> MaxQueueLength (metrics q) <= maxSize q).

(** After [k] operations on a new queue: the counters have not wrapped and
    their difference is the length of the queue. *)
Definition conserved (q : CommitQueue Item) (k : Z) : Prop :=
  0 <= DequeueCount (metrics q) /\
  EnqueueCount (metrics q) = DequeueCount (metrics q) + len (items q) /\
  EnqueueCount (metrics q) <= k.

(** What was delivered, then what waits, is what was there and accepted. *)
Definition in_order (base : list Item) (st : CommitQueue Item * Moved)
  : Prop :=
  delivered (snd st) ++ items (fst st) = base ++ accepted (snd st).

End Flow.

Arguments Moved : clear implicits.

End Flow.

(* ===================================================================== *)
(** * More of package [usecase]: [Create], [GetCommitsByReleaseID] and the
      batch insert without duplicate check *)
(* ===================================================================== *)

Module Usecase.

Import Persist.

(** What the database answers during one call of [Create]:
    [lookup_err] is an error of the existence check other than "record not
    found", [insert_err] the error of the insert, [tx_commit_err] that of
    the commit. *)
Record CreateFaults : Type := mkCreateFaults {
  lookup_err : bool;
  insert_err : bool;
  tx_commit_err : bool
}.

Definition create_ok : CreateFaults := mkCreateFaults false false false.

Inductive create_error : Type :=
| ErrInsert        (* [c.CommitRepository.Create(tx, commit)] *)
| ErrTxCommit.     (* [tx.Commit().Error] *)

(** How [Create] ends: [return &resp, nil], [return nil, err], or a panic. *)
Inductive CreateResult : Type :=
| Stored (resp : CommitResponse)
| CreateFailed (err : create_error)
| CreatePanicked.

(** [Where("hash = ? AND release_id = ?", hash, releaseID).First]: the
    first matching row (the table is kept in key order), or "record not
    found". *)
Definition db_first (db : DB) (hash : string) (releaseID : Z)
  : option Commit :=
  head (filter (λ c, commit_Hash c = hash ∧ commit_ReleaseID c = releaseID)
               (rows db)).

(** [CommitUsecase.Create].  Any error of the existence check, "record not
    found" or not, leads to the insert.  [CommitRepository.Create] is the
    embedded generic repository's method, which is not among the sources; it
    is taken to be the insert of the store.  The debug line of the
    existing-commit branch slices [commit.Hash[:8]]. *)
Definition Create (f : CreateFaults) (db : DB) (request : CreateCommitRequest)
  : DB * CreateResult * list string :=
  let commit := toEntity request in
  let existingCheck :=
    if lookup_err f then None
    else db_first db (commit_Hash commit) (commit_ReleaseID commit) in
  match existingCheck with
  | Some existingCommit =>
      if (String.length (commit_Hash commit) <? 8)%nat
      then (db, CreatePanicked, [])
      else (db, Stored (toResponse existingCommit),
            ["Commit already exists, skipping"])
  | None =>
      if insert_err f then
        (db, CreateFailed ErrInsert, ["error creating commit"])
      else if tx_commit_err f then
        (db, CreateFailed ErrTxCommit, ["error committing transaction"])
      else
        let '(db', stored) := db_create db commit in
        (db', Stored (toResponse stored), [])
  end.

(** [GetCommitsByReleaseID]: the responses of the rows of one release, in
    table order, or the error of the query. *)
Definition GetCommitsByReleaseID (query_err : bool) (db : DB) (releaseID : Z)
  : option (list CommitResponse) :=
  if query_err then None
  else Some (map toResponse (db_find_by_release db releaseID)).

Inductive batch_error : Type :=
| ErrCreateInBatches
| ErrBatchCommit.

(** The [CommitUsecase.BatchCreate] of the variant without duplicate
    check: one transaction, [CreateInBatches(commits, 100)], commit. *)
Definition BatchCreateAll (batch_err commit_err : bool) (db : DB)
    (requests : list CreateCommitRequest)
  : DB * (list CommitResponse + batch_error) :=
  match requests with
  | [] => (db, inl [])
  | _ :: _ =>
      let commits := map toEntity requests in
      if batch_err then (db, inr ErrCreateInBatches)
      else if commit_err then (db, inr ErrBatchCommit)
      else
        let '(db', saved) := db_create_all db commits in
        (db', inl (map toResponse saved))
  end.

End Usecase.

(* ===================================================================== *)
(** * The worker of the commit queue: [processCommits] *)
(* ===================================================================== *)

Module Worker.

(** What the worker reads off a call of [BatchCreate]: the number of
    responses, an error, or a panic of the call. *)
Inductive CallResult : Type :=
| CallOk (success_count : Z)
| CallErr
| CallPanic.

Inductive WorkerLog : Type :=
| InfoProcessing (count : Z)
| ErrorProcessing (batch_size : Z)
| InfoTryingSmaller
| InfoSmallerBatch (batch_start batch_end batch_size : Z)
| ErrorSmallerFailed
| InfoSmallerSucceeded (success_count : Z)
| InfoCompleted (success_count batch_size : Z).

Section ProcessCommits.

(** The state the use case works on, the requests, and
    [p.commitUsecase.BatchCreate]: its [k]-th call by this worker, on the
    state it finds. *)
Context {Store Req : Type}.
Variable BatchCreate : nat -> Store -> list Req -> Store * CallResult.

Record Processed : Type := mkProcessed {
  store : Store;
  submitted : list (list Req);   (* the batches passed on, in order *)
  worker_log : list WorkerLog;
  panicked : bool
}.

(** The loop [for i := 0; i < len(commits); i += batchSize] with
    [batchSize := 10]; [k] numbers the calls.  [fuel] bounds the iterations:
    [len(commits)] is enough, [i] grows by 10 each time. *)
Fixpoint smaller_batches (fuel : nat) (i k : nat) (commits : list Req)
    (st : Store) : Processed :=
  match fuel with
  | O => mkProcessed st [] [] false
  | S fuel' =>
      if (i <? length commits)%nat then
        let batch_end := if (length commits <? i + 10)%nat
                         then length commits else (i + 10)%nat in
        let smallBatch := take (batch_end - i) (drop i commits) in
        let line := InfoSmallerBatch (Z.of_nat i) (Z.of_nat batch_end)
                                     (len smallBatch) in
        match BatchCreate k st smallBatch with
        | (st', CallPanic) =>
            mkProcessed st' [smallBatch] [line] true
        | (st', r) =>
            let rest := smaller_batches fuel' (i + 10) (S k) commits st' in
            mkProcessed (store rest) (smallBatch :: submitted rest)
              (line :: match r with
                       | CallOk n => InfoSmallerSucceeded n
                       | _ => ErrorSmallerFailed
                       end :: worker_log rest)
              (panicked rest)
        end
      else mkProcessed st [] [] false
  end.

(** [processCommits]: nothing on an empty batch; one call on the whole
    batch; on its error the batch is tried again in smaller batches. *)
Definition processCommits (commits : list Req) (st : Store) : Processed :=
  match commits with
  | [] => mkProcessed st [] [] false
  | _ :: _ =>
      match BatchCreate 0 st commits with
      | (st', CallPanic) =>
          mkProcessed st' [commits] [InfoProcessing (len commits)] true
      | (st', CallOk n) =>
          mkProcessed st' [commits]
            [InfoProcessing (len commits); InfoCompleted n (len commits)]
            false
      | (st', CallErr) =>
          let rest := smaller_batches (length commits) 0 1 commits st' in
          mkProcessed (store rest) (commits :: submitted rest)
            (InfoProcessing (len commits) :: ErrorProcessing (len commits)
             :: InfoTryingSmaller :: worker_log rest)
            (panicked rest)
      end
  end.

(** No call of [BatchCreate] panics. *)
Definition never_panics : Prop :=
  forall (k : nat) (st : Store) (batch : list Req),
    snd (BatchCreate k st batch) <> CallPanic.

End ProcessCommits.

Arguments Processed : clear implicits.

End Worker.

(* ===================================================================== *)
(** * The queue configuration ([queue_config.go]) *)
(* ===================================================================== *)

Module Config.









End Config.

(* ===================================================================== *)
(** * Runs of the coordinator *)
(* ===================================================================== *)

Module Service.

Import Coordinator.

Section Runs.

Context {Data : Type}.
Variable marshal : option Data -> string.

(** What is done to a coordinator over its life. *)
Inductive CoordOp : Type :=
| DoCrawlAll (env : Replies Data)
| DoForceReactivateAll
| DoSetStabilityThreshold (threshold : Z).

Definition apply_coord (c : CrawlingCoordinator Data) (op : CoordOp)
  : CrawlingCoordinator Data :=
  match op with
  | DoCrawlAll env => fst (CrawlAll marshal c env)
  | DoForceReactivateAll => ForceReactivateAll c
  | DoSetStabilityThreshold threshold => SetStabilityThreshold c threshold
  end.

Definition run_coord (c : CrawlingCoordinator Data) (ops : list CoordOp)
  : CrawlingCoordinator Data :=
  fold_left apply_coord ops c.

(** The thresholds a run sets are all at least [n]. *)
Definition thresholds_at_least (n : Z) (ops : list CoordOp) : Prop :=
  Forall (λ op, match op with
                | DoSetStabilityThreshold t => n <= t
                | _ => True
                end) ops.

(** The stages called in a trace, in order. *)
Definition stages_called (t : list Event) : list Stage :=
  omap (λ e, match e with Called s => Some s | Logged _ => None end) t.

(** All three caches hold a payload. *)
Definition all_cached (c : CrawlingCoordinator Data) : Prop :=
  is_nil (repoCache c) = false /\ is_nil (releaseCache c) = false
  /\ is_nil (commitCache c) = false.

(** No stage is paused and no no-change streak is longer than 1, under a
    threshold of at least 2. *)
Definition never_stable (c : CrawlingCoordinator Data) : Prop :=
  (releaseNoChangeCount c = 0 \/ releaseNoChangeCount c = 1) /\
  (commitNoChangeCount c = 0 \/ commitNoChangeCount c = 1) /\
  releasePaused c = false /\ commitPaused c = false /\
  repoPaused c = false /\ repoNoChangeCount c = 0 /\
  2 <= stabilityThreshold c.

End Runs.

Arguments CoordOp : clear implicits.

End Service.

(* ===================================================================== *)
(** * Properties *)
(* ===================================================================== *)

Lemma wrap64_id (z : Z) : - 2 ^ 63 <= z < 2 ^ 63 -> wrap64 z = z.
Proof.
  intros Hz. unfold wrap64.
  rewrite Z.mod_small; lia.
Qed.

Lemma len_nonneg {A : Type} (l : list A) : 0 <= len l.
Proof. unfold len. lia. Qed.

Lemma len_app {A : Type} (l k : list A) : len (l ++ k) = len l + len k.
Proof. unfold len. rewrite length_app. lia. Qed.

Lemma len_nil_iff {A : Type} (l : list A) : len l = 0 <-> l = [].
Proof.
  unfold len. split.
  - destruct l; [reflexivity | simpl; lia].
  - intros ->. reflexivity.
Qed.

(** ** The bounded queue *)

Section QueueProperties.

Import Queue.
Context {Item : Type}.
Implicit Types (q : CommitQueue Item) (x : Item) (op : QueueOp Item).

Lemma is_full_true q :
  is_full q = true <-> 0 < maxSize q /\ maxSize q <= len (items q).
Proof. unfold is_full. rewrite andb_true_iff, Z.ltb_lt, Z.leb_le. tauto. Qed.

Lemma is_full_false q :
  is_full q = false <-> maxSize q <= 0 \/ len (items q) < maxSize q.
Proof.
  unfold is_full. rewrite andb_false_iff, Z.ltb_ge, Z.leb_gt. tauto.
Qed.

Lemma enqueue_rejects q x :
  is_full q = true -> EnqueueCommit q x = (q, false).
Proof. intros H. unfold EnqueueCommit. rewrite H. reflexivity. Qed.

Lemma enqueue_accepts q x :
  is_full q = false -> EnqueueCommit q x = (enqueued q x, true).
Proof. intros H. unfold EnqueueCommit. rewrite H. reflexivity. Qed.

Lemma enqueue_maxSize q x : maxSize (fst (EnqueueCommit q x)) = maxSize q.
Proof. unfold EnqueueCommit. destruct (is_full q); reflexivity. Qed.

Lemma dequeue_maxSize q d n : maxSize (fst (dequeueCommits q d n)) = maxSize q.
Proof.
  unfold dequeueCommits. destruct (items q); [reflexivity |].
  destruct (_ <? 0); reflexivity.
Qed.

Lemma resume_cases q d n :
  resumeDequeue q d n = (q, DqNil) \/
  resumeDequeue q d n = dequeueCommits q false n.
Proof. unfold resumeDequeue. destruct d; auto. Qed.

Lemma apply_op_maxSize q op : maxSize (apply_op q op) = maxSize q.
Proof.
  destruct op as [x | d n | d n | n]; simpl.
  - apply enqueue_maxSize.
  - apply dequeue_maxSize.
  - destruct (resume_cases q d n) as [-> | ->];
      [reflexivity | apply dequeue_maxSize].
  - reflexivity.
Qed.

Lemma run_maxSize ops q : maxSize (run q ops) = maxSize q.
Proof.
  revert q. induction ops as [|op ops IH]; intros q; [reflexivity |].
  unfold run in *. simpl. rewrite IH. apply apply_op_maxSize.
Qed.

(** An accepted enqueue keeps the bound: it happens only below it. *)
Lemma enqueue_bounded q x : bounded q -> bounded (fst (EnqueueCommit q x)).
Proof.
  intros Hb. unfold EnqueueCommit.
  destruct (is_full q) eqn:Hf; [exact Hb |].
  apply is_full_false in Hf. unfold bounded. simpl.
  rewrite len_app. unfold len at 2. simpl. lia.
Qed.

(** A dequeue only shortens the queue. *)
Lemma dequeue_shrinks q d n :
  len (items (fst (dequeueCommits q d n))) <= len (items q).
Proof.
  unfold dequeueCommits. destruct (items q) as [|y l] eqn:E.
  - simpl. rewrite E. lia.
  - destruct (_ <? 0); simpl; [rewrite E; lia |].
    unfold len. rewrite length_drop, E. lia.
Qed.

Lemma dequeue_bounded q d n : bounded q -> bounded (fst (dequeueCommits q d n)).
Proof.
  intros Hb. unfold bounded. rewrite dequeue_maxSize. intros Hpos.
  specialize (Hb Hpos). pose proof (dequeue_shrinks q d n). lia.
Qed.

Lemma apply_op_bounded q op : bounded q -> bounded (apply_op q op).
Proof.
  intros Hb. destruct op as [x | d n | d n | n]; simpl.
  - apply enqueue_bounded, Hb.
  - apply dequeue_bounded, Hb.
  - destruct (resume_cases q d n) as [-> | ->];
      [exact Hb | apply dequeue_bounded, Hb].
  - exact Hb.
Qed.

Lemma run_bounded ops q : bounded q -> bounded (run q ops).
Proof.
  revert q. induction ops as [|op ops IH]; intros q Hb; [exact Hb |].
  unfold run in *. simpl. apply IH, apply_op_bounded, Hb.
Qed.

Lemma new_queue_bounded (n : Z) : bounded (NewCommitQueue (Item := Item) n).
Proof. unfold bounded. simpl. unfold len. simpl. lia. Qed.

(** C1. Backpressure invariant: after any sequence of enqueue and dequeue
    operations (dequeues entered afresh or resumed after a wait, and the
    workers' end-of-batch bookkeeping) on a queue built with [maxSize], (a) if [maxSize > 0] the
    length is at most [maxSize]; (b) if moreover the length equals
    [maxSize], the next enqueue returns [false] and leaves the whole queue
    state (items, hence length, and the enqueue counter) as it was; (c) if
    [maxSize <= 0], an enqueue always appends the item at the end and
    returns [true]. *)
Theorem C1_backpressure_invariant :
  forall (size : Z) (ops : list (QueueOp Item)) (x : Item),
    let q := run (NewCommitQueue size) ops in
    (0 < size -> len (items q) <= size) /\
    (0 < size -> len (items q) = size ->
       EnqueueCommit q x = (q, false) /\
       items (fst (EnqueueCommit q x)) = items q /\
       EnqueueCount (metrics (fst (EnqueueCommit q x)))
         = EnqueueCount (metrics q)) /\
    (size <= 0 ->
       snd (EnqueueCommit q x) = true /\
       items (fst (EnqueueCommit q x)) = items q ++ [x]).
Proof.
  intros size ops x q.
  assert (Hm : maxSize q = size) by (unfold q; rewrite run_maxSize; reflexivity).
  assert (Hb : bounded q) by (apply run_bounded, new_queue_bounded).
  split; [| split].
  - intros Hpos. unfold bounded in Hb. rewrite Hm in Hb. auto.
  - intros Hpos Hlen.
    assert (Hf : is_full q = true) by (apply is_full_true; lia).
    rewrite (enqueue_rejects q x Hf). auto.
  - intros Hle.
    assert (Hf : is_full q = false) by (apply is_full_false; lia).
    rewrite (enqueue_accepts q x Hf). auto.
Qed.

(** The batch taken by a dequeue, as source text computes it. *)
Lemma take_count_min q n : take_count q n = Z.min n (len (items q)).
Proof. unfold take_count. destruct (Z.ltb_spec (len (items q)) n); lia. Qed.

(** A negative [maxCount] on a non-empty queue panics and changes nothing. *)
Lemma dequeue_negative_panics q d n :
  items q <> [] -> n < 0 -> dequeueCommits q d n = (q, DqPanic).
Proof.
  intros Hne Hn. unfold dequeueCommits.
  destruct (items q) as [|y l] eqn:E; [congruence |].
  rewrite take_count_min.
  destruct (Z.ltb_spec (Z.min n (len (items q))) 0); [reflexivity | lia].
Qed.

(** A resumed call that returns a batch is a call on the state found. *)
Lemma resume_items q d m q' batch :
  resumeDequeue q d m = (q', DqItems batch) ->
  dequeueCommits q false m = (q', DqItems batch).
Proof. unfold resumeDequeue. destruct d; [discriminate | auto]. Qed.

(** What a call that returns a batch has done. *)
Lemma dequeue_items_inv q d m q' batch :
  dequeueCommits q d m = (q', DqItems batch) ->
  0 <= Z.min m (len (items q)) /\
  q' = dequeued q (Z.min m (len (items q))) /\
  batch = take (Z.to_nat (Z.min m (len (items q)))) (items q).
Proof.
  unfold dequeueCommits. rewrite take_count_min.
  destruct (items q) as [|y l]; [destruct d; discriminate |].
  destruct (Z.ltb_spec (Z.min m (len (y :: l))) 0) as [Hlt | Hge];
    [discriminate |].
  intros H. injection H as <- <-. auto.
Qed.

(** C9. FIFO batch dequeue: on a non-empty queue, (a) a call with
    [maxCount >= 0] returns a batch; (b) every call that returns a batch
    returns exactly [min maxCount len] items, which are the first (oldest)
    items of the queue in their order, the queue keeping the rest in order;
    the dequeue counter and the processing counter are both increased by
    that number (in 64-bit arithmetic) and nothing else changes. *)
Theorem C9_fifo_batch_dequeue :
  forall (q : CommitQueue Item) (ctxDone : bool) (maxCount : Z),
    items q <> [] ->
    (0 <= maxCount ->
       exists q' batch, dequeueCommits q ctxDone maxCount = (q', DqItems batch)) /\
    (forall q' batch,
       dequeueCommits q ctxDone maxCount = (q', DqItems batch) ->
       let n := Z.min maxCount (len (items q)) in
       len batch = n /\
       batch = take (Z.to_nat n) (items q) /\
       items q' = drop (Z.to_nat n) (items q) /\
       items q = batch ++ items q' /\
       DequeueCount (metrics q') = wrap64 (DequeueCount (metrics q) + n) /\
       processing q' = wrap64 (processing q + n) /\
       EnqueueCount (metrics q') = EnqueueCount (metrics q) /\
       MaxQueueLength (metrics q') = MaxQueueLength (metrics q) /\
       maxSize q' = maxSize q).
Proof.
  intros q ctxDone maxCount Hne. split.
  - intros Hpos. unfold dequeueCommits.
    destruct (items q) as [|y l] eqn:E; [congruence |].
    rewrite take_count_min.
    destruct (Z.ltb_spec (Z.min maxCount (len (items q))) 0) as [Hlt | Hge].
    + pose proof (len_nonneg (items q)). lia.
    + eauto.
  - intros q' batch Hd. cbv zeta.
    apply dequeue_items_inv in Hd as (Hn & -> & ->).
    set (n := Z.min maxCount (len (items q))) in *.
    simpl. repeat split; try reflexivity.
    + unfold len. rewrite length_take.
      assert (n <= len (items q)) by (unfold n; lia).
      unfold len in *. lia.
    + rewrite take_drop. reflexivity.
Qed.

End QueueProperties.

(** The queue on concrete requests: capacity 2, three enqueues, then a
    batch of at most 5. *)
Example queue_scenario :
  let q0 := Queue.NewCommitQueue (Item := string) 2 in
  let q3 := Queue.run q0 [Queue.OpEnqueue "a"; Queue.OpEnqueue "b";
                          Queue.OpEnqueue "c"] in
  Queue.items q3 = ["a"; "b"] /\
  Queue.EnqueueCount (Queue.metrics q3) = 2 /\
  snd (Queue.dequeueCommits q3 false 5) = Queue.DqItems ["a"; "b"] /\
  snd (Queue.dequeueCommits q3 false 1) = Queue.DqItems ["a"] /\
  snd (Queue.dequeueCommits q3 false (-1)) = Queue.DqPanic /\
  snd (Queue.dequeueCommits q0 false 5) = Queue.DqWait /\
  snd (Queue.dequeueCommits q0 true 5) = Queue.DqNil.
Proof. vm_compute. repeat split. Qed.

(** ** The batch persister *)

Section PersistProperties.

Import Persist.
Implicit Types (db : DB) (f : Faults) (req first : CreateCommitRequest)
         (requests rest : list CreateCommitRequest) (c : Commit).

Lemma elem_of_map {A B : Type} (g : A -> B) (l : list A) (y : B) :
  y ∈ map g l <-> exists x, y = g x /\ x ∈ l.
Proof.
  rewrite list_elem_of_In, in_map_iff. split.
  - intros (x & <- & Hx). exists x. rewrite list_elem_of_In. auto.
  - intros (x & -> & Hx). exists x. rewrite <- list_elem_of_In. auto.
Qed.

(** *** The existence query and the filter *)

Lemma db_find_spec db (hashes : list string) (rid : Z) c :
  c ∈ db_find db hashes rid <->
  c ∈ rows db /\ commit_Hash c ∈ hashes /\ commit_ReleaseID c = rid.
Proof. unfold db_find. rewrite list_elem_of_filter. tauto. Qed.

Lemma existingMap_fold (existing : list Commit) (m : gmap string bool)
    (h : string) :
  foldl (λ m c, <[commit_Hash c := true]> m) m existing !! h
  = if decide (h ∈ map commit_Hash existing) then Some true else m !! h.
Proof.
  revert m. induction existing as [|c ex IH]; intros m.
  - cbn [foldl map].
    destruct (decide (h ∈ [])) as [Hin | _]; [| reflexivity].
    apply elem_of_nil in Hin as [].
  - cbn [foldl map]. rewrite IH.
    destruct (decide (h ∈ map commit_Hash ex)) as [Hin | Hnin].
    + rewrite decide_True; [reflexivity | apply elem_of_cons; auto].
    + destruct (decide (h = commit_Hash c)) as [-> | Hne].
      * rewrite decide_True by (apply elem_of_cons; auto).
        apply lookup_insert_eq.
      * rewrite decide_False.
        -- apply lookup_insert_ne. congruence.
        -- rewrite elem_of_cons. tauto.
Qed.

(** A request reads as existing exactly when some row found has its hash. *)
Lemma is_existing_spec (existing : list Commit) req :
  is_existing (existingMap existing) req = true <->
  exists c, c ∈ existing /\ commit_Hash c = Hash req.
Proof.
  unfold is_existing, existingMap. rewrite existingMap_fold.
  destruct (decide (Hash req ∈ map commit_Hash existing)) as [Hin | Hnin].
  - simpl. split; [intros _ | reflexivity].
    apply elem_of_map in Hin as (c & Hc & Hin). eauto.
  - rewrite lookup_empty. simpl. split; [discriminate |].
    intros (c & Hc & Hh). exfalso. apply Hnin, elem_of_map. eauto.
Qed.

Lemma existingCommits_query f db first rest :
  find_err f = false ->
  existingCommits f db (first :: rest)
  = db_find db (map Hash (first :: rest)) (ReleaseID first).
Proof. intros H. unfold existingCommits. rewrite H. reflexivity. Qed.

Lemma existingCommits_error f db requests :
  find_err f = true -> existingCommits f db requests = [].
Proof.
  intros H. unfold existingCommits. destruct requests; [reflexivity |].
  rewrite H. reflexivity.
Qed.

Lemma newRequests_spec f db requests req :
  req ∈ newRequests f db requests <->
  req ∈ requests /\
  is_existing (existingMap (existingCommits f db requests)) req = false.
Proof. unfold newRequests. rewrite list_elem_of_filter. tauto. Qed.

(** The scope of the duplicate check: with a working query, a request of
    the batch is classified as present exactly when the table holds a row
    with its hash under the release of the FIRST request. *)
Lemma classified_present_iff f db first rest req :
  find_err f = false -> req ∈ first :: rest ->
  (req ∉ newRequests f db (first :: rest) <->
   exists c, c ∈ rows db /\ commit_Hash c = Hash req
             /\ commit_ReleaseID c = ReleaseID first).
Proof.
  intros Hf Hin. rewrite newRequests_spec, existingCommits_query by exact Hf.
  split.
  - intros Hn.
    destruct (is_existing _ req) eqn:E; [| exfalso; apply Hn; auto].
    apply is_existing_spec in E as (c & Hc & Hh).
    apply db_find_spec in Hc as (Hr & _ & Hrel). eauto.
  - intros (c & Hr & Hh & Hrel) [_ Hfalse].
    assert (is_existing
              (existingMap (db_find db (map Hash (first :: rest))
                                    (ReleaseID first))) req = true) as E.
    { apply is_existing_spec. exists c. split; [| exact Hh].
      apply db_find_spec. repeat split; auto.
      apply elem_of_map. exists req. auto. }
    congruence.
Qed.

(** With a failed query nothing is classified as present. *)
Lemma newRequests_error f db requests :
  find_err f = true -> newRequests f db requests = requests.
Proof.
  intros Hf. unfold newRequests. rewrite (existingCommits_error _ _ _ Hf).
  induction requests as [|r l IH]; [reflexivity |].
  rewrite filter_cons_True; [f_equal; exact IH | reflexivity].
Qed.

(** *** Inserts *)

Lemma db_create_all_spec (cs : list Commit) db :
  rows (fst (db_create_all db cs)) = rows db ++ snd (db_create_all db cs) /\
  Forall2 same_data cs (snd (db_create_all db cs)) /\
  next_id (fst (db_create_all db cs)) = next_id db + len cs.
Proof.
  revert db. induction cs as [|c cs IH]; intros db; simpl.
  - rewrite app_nil_r. unfold len. simpl. repeat split; [constructor | lia].
  - specialize (IH (fst (db_create db c))).
    destruct (db_create_all (fst (db_create db c)) cs) as [db2 saved] eqn:E.
    simpl in *. unfold db_create in E. simpl in E. rewrite E. simpl.
    destruct IH as (Hrows & Hdata & Hid). rewrite Hrows, <- app_assoc. simpl.
    repeat split.
    + constructor; [repeat split | exact Hdata].
    + rewrite Hid. unfold len. simpl. lia.
Qed.

Lemma Forall2_same_data_elem (cs saved : list Commit) c :
  Forall2 same_data cs saved -> c ∈ cs ->
  exists c', c' ∈ saved /\ same_data c c'.
Proof.
  induction 1 as [|x y l k Hxy _ IH]; intros Hin.
  - apply elem_of_nil in Hin as [].
  - apply elem_of_cons in Hin as [-> | Hin].
    + exists y. split; [apply elem_of_cons; auto | exact Hxy].
    + destruct (IH Hin) as (c' & Hc' & Hd). exists c'.
      split; [apply elem_of_cons; auto | exact Hd].
Qed.

Lemma rows_db_create db c :
  rows (fst (db_create db c))
  = rows db ++ [mkCommit (next_id db) (commit_Hash c) (commit_Message c)
                         (commit_ReleaseID c)].
Proof. reflexivity. Qed.

(** *** The per-record fallback *)

Lemma individual_failures_app (l k : list LogEntry) :
  individual_failures (l ++ k) = individual_failures l + individual_failures k.
Proof. unfold individual_failures. rewrite List.filter_app. apply len_app. Qed.

Lemma individual_failures_samples (i : nat) requests :
  individual_failures (samples i requests) = 0.
Proof.
  revert i. induction requests as [|r l IH]; intros i; [reflexivity |].
  simpl. apply (IH (S i)).
Qed.

(** One step of the loop, case by case. *)
Ltac fb_step f i request :=
  cbn [individual_inserts];
  destruct (create_err f i);
  [ destruct (String.length (commit_Hash (toEntity request)) <? 8)%nat eqn:?
  | ].

(** Every request is attempted once, in order, when the loop ends. *)
Lemma fb_done_ops (reqs : list CreateCommitRequest) f (i : nat)
    (st st' : Fallback) :
  individual_inserts f i reqs st = FbDone st' ->
  fb_ops st' = fb_ops st ++ map (λ r, OpCreate (toEntity r)) reqs.
Proof.
  revert i st. induction reqs as [|request reqs IH]; intros i st.
  - simpl. intros [= <-]. rewrite app_nil_r. reflexivity.
  - fb_step f i request; [discriminate | |];
      intros H; apply IH in H; rewrite H; simpl;
      rewrite <- app_assoc; reflexivity.
Qed.

(** Each attempt is counted once, as a success or as a failure. *)
Lemma fb_done_counts (reqs : list CreateCommitRequest) f (i : nat)
    (st st' : Fallback) :
  individual_inserts f i reqs st = FbDone st' ->
  fb_success st' + fb_errors st'
    = fb_success st + fb_errors st + len reqs /\
  fb_success st <= fb_success st' /\ fb_errors st <= fb_errors st'.
Proof.
  revert i st. induction reqs as [|request reqs IH]; intros i st.
  - simpl. intros [= <-]. unfold len. simpl. lia.
  - fb_step f i request; [discriminate | |];
      intros H; apply IH in H; simpl in H; unfold len in *; simpl; lia.
Qed.

(** The failure lines of the log are the failures counted. *)
Lemma fb_done_log (reqs : list CreateCommitRequest) f (i : nat)
    (st st' : Fallback) :
  individual_inserts f i reqs st = FbDone st' ->
  individual_failures (fb_log st') - fb_errors st'
    = individual_failures (fb_log st) - fb_errors st.
Proof.
  revert i st. induction reqs as [|request reqs IH]; intros i st.
  - simpl. intros [= <-]. reflexivity.
  - fb_step f i request; [discriminate | |];
      intros H; apply IH in H; simpl in H; [| exact H].
    rewrite individual_failures_app in H.
    change (individual_failures [WarnIndividualFailed _]) with 1 in H. lia.
Qed.

(** The rows only grow, and without a failure every request is stored. *)
Lemma fb_done_rows (reqs : list CreateCommitRequest) f (i : nat)
    (st st' : Fallback) :
  individual_inserts f i reqs st = FbDone st' ->
  (forall c, c ∈ rows (fb_db st) -> c ∈ rows (fb_db st')) /\
  (fb_errors st' = fb_errors st ->
   forall r, r ∈ reqs ->
     exists c', c' ∈ rows (fb_db st') /\ same_data (toEntity r) c').
Proof.
  revert i st. induction reqs as [|request reqs IH]; intros i st.
  - simpl. intros [= <-]. split; [auto |].
    intros _ r Hr. apply elem_of_nil in Hr as [].
  - fb_step f i request; [discriminate | |]; intros H.
    + pose proof (fb_done_counts _ _ _ _ _ H) as (_ & _ & Hle).
      apply IH in H as [Hmono _]. simpl in *.
      split; [exact Hmono | intros Heq; lia].
    + apply IH in H as [Hmono Hall]. simpl in *.
      assert (Hgrow : forall c, c ∈ rows (fb_db st) -> c ∈ rows (fb_db st')).
      { intros c Hc. apply Hmono. apply elem_of_app. auto. }
      split; [exact Hgrow |].
      intros Heq r [-> | Hr]%elem_of_cons; [| auto].
      eexists. split.
      * apply Hmono, elem_of_app. right. apply list_elem_of_singleton.
        reflexivity.
      * repeat split.
Qed.

(** The loop ends normally when no hash is shorter than 8 bytes. *)
Lemma fb_long_hashes_done (reqs : list CreateCommitRequest) f (i : nat)
    (st : Fallback) :
  (forall r, r ∈ reqs -> (8 <= String.length (Hash r))%nat) ->
  exists st', individual_inserts f i reqs st = FbDone st'.
Proof.
  revert i st. induction reqs as [|request reqs IH]; intros i st Hlen.
  - simpl. eauto.
  - assert (Hrest : forall r, r ∈ reqs -> (8 <= String.length (Hash r))%nat)
      by (intros r Hr; apply Hlen, elem_of_cons; auto).
    fb_step f i request; [| apply IH, Hrest | apply IH, Hrest].
    apply Nat.ltb_lt in Heqb.
    specialize (Hlen request ltac:(apply elem_of_cons; auto)).
    simpl in Heqb. lia.
Qed.

(** What was sent and logged before the loop stays at the head. *)
Lemma fb_prefix (reqs : list CreateCommitRequest) f (i : nat)
    (st : Fallback) :
  exists more_ops more_log,
    fb_ops (fb_state (individual_inserts f i reqs st)) = fb_ops st ++ more_ops
    /\ fb_log (fb_state (individual_inserts f i reqs st))
       = fb_log st ++ more_log.
Proof.
  revert i st. induction reqs as [|request reqs IH]; intros i st.
  - exists [], []. simpl. rewrite !app_nil_r. auto.
  - fb_step f i request.
    + exists [OpCreate (toEntity request)], [].
      cbn [fb_state fb_ops fb_log]. rewrite app_nil_r. split; reflexivity.
    + destruct (IH (S i) (mkFallback (fb_db st) (fb_success st)
                  (fb_errors st + 1) (fb_ops st ++ [OpCreate (toEntity request)])
                  (fb_log st ++ [WarnIndividualFailed
                     (String.substring 0 8 (commit_Hash (toEntity request))
                      +:+ "...")]))) as (mo & ml & Ho & Hl).
      rewrite Ho, Hl. simpl. rewrite <- !app_assoc. eauto.
    + destruct (IH (S i) (mkFallback (fst (db_create (fb_db st) (toEntity request)))
                  (fb_success st + 1) (fb_errors st)
                  (fb_ops st ++ [OpCreate (toEntity request)]) (fb_log st)))
        as (mo & ml & Ho & Hl).
      rewrite Ho, Hl. simpl. rewrite <- !app_assoc. eauto.
Qed.

(** *** The paths of [BatchCreate] *)

Lemma head_log_failures f db requests :
  individual_failures (head_log f db requests) = 0.
Proof.
  unfold head_log, sample_log.
  rewrite !individual_failures_app, individual_failures_samples.
  destruct (find_err f); reflexivity.
Qed.

(** Every request already present: nothing is sent but the query. *)
Lemma BatchCreate_all_present f db first rest :
  newRequests f db (first :: rest) = [] ->
  BatchCreate f db (first :: rest)
  = mkOutcome db (Returned [])
              (head_ops first rest ++ [OpRollback; OpRollback])
              (head_log f db (first :: rest)
               ++ if rollback_err f then [WarnRollback] else []).
Proof.
  intros H. unfold BatchCreate, head_log, head_ops. rewrite H.
  rewrite <- !app_assoc. reflexivity.
Qed.

(** The transactional path commits. *)
Lemma BatchCreate_committed f db first rest firstNew others :
  newRequests f db (first :: rest) = firstNew :: others ->
  batch_err f = false -> commit_err f = false ->
  let commits := map toEntity (firstNew :: others) in
  BatchCreate f db (first :: rest)
  = mkOutcome (fst (db_create_all db commits))
              (Returned (map toResponse (snd (db_create_all db commits))))
              (head_ops first rest
               ++ [OpCreateInBatches commits 50] ++ [OpCommit; OpRollback])
              (head_log f db (first :: rest)
               ++ [InfoSaved (len (snd (db_create_all db commits)))]).
Proof.
  intros H Hb Hc commits. unfold BatchCreate, head_log, head_ops.
  rewrite H, Hb, Hc. fold commits.
  destruct (db_create_all db commits) as [db' saved].
  rewrite <- !app_assoc. reflexivity.
Qed.

(** The commit of the transaction fails: the error is returned. *)
Lemma BatchCreate_commit_failed f db first rest firstNew others :
  newRequests f db (first :: rest) = firstNew :: others ->
  batch_err f = false -> commit_err f = true ->
  out_db (BatchCreate f db (first :: rest)) = db /\
  out_result (BatchCreate f db (first :: rest)) = Failed ErrCommitTx.
Proof.
  intros H Hb Hc. unfold BatchCreate. rewrite H, Hb, Hc. auto.
Qed.

(** The batch insert fails: the per-record fallback runs. *)
Lemma BatchCreate_fallback f db first rest firstNew others :
  newRequests f db (first :: rest) = firstNew :: others ->
  batch_err f = true ->
  BatchCreate f db (first :: rest)
  = fallback f db (firstNew :: others) (ReleaseID firstNew)
      (head_ops first rest
       ++ [OpCreateInBatches (map toEntity (firstNew :: others)) 50])
      (head_log f db (first :: rest)).
Proof.
  intros H Hb. unfold BatchCreate, head_log, head_ops. rewrite H, Hb.
  reflexivity.
Qed.

(** Fallback completeness when the loop ends: every new request is
    attempted exactly once, in order, and the two counters logged add up to
    their number. *)
Lemma fallback_complete f db (newReqs : list CreateCommitRequest)
    (ops : list DbOp) (log : list LogEntry) (st : Fallback) :
  individual_inserts f 0 newReqs (fb_start db ops log) = FbDone st ->
  fb_success st + fb_errors st = len newReqs /\
  fb_ops st = ops ++ [OpRollback; OpBegin]
              ++ map (λ r, OpCreate (toEntity r)) newReqs.
Proof.
  intros H. pose proof (fb_done_counts _ _ _ _ _ H) as (Hsum & _ & _).
  pose proof (fb_done_ops _ _ _ _ _ H) as Hops. simpl in *.
  split; [lia |]. rewrite Hops, <- app_assoc. reflexivity.
Qed.

(** The loop ends for every batch whose hashes have at least 8 bytes. *)
Lemma fallback_long_hashes_complete f db (newReqs : list CreateCommitRequest)
    (ops : list DbOp) (log : list LogEntry) :
  (forall r, r ∈ newReqs -> (8 <= String.length (Hash r))%nat) ->
  exists st,
    individual_inserts f 0 newReqs (fb_start db ops log) = FbDone st /\
    fb_success st + fb_errors st = len newReqs.
Proof.
  intros Hlen.
  destruct (fb_long_hashes_done newReqs f 0%nat (fb_start db ops log) Hlen)
    as [st Hst].
  exists st. split; [exact Hst | apply (fallback_complete _ _ _ _ _ _ Hst)].
Qed.

(** C5. Fallback completeness, evaluated where the code misses it: the
    table is empty, the batch holds a request with the 3-byte hash "abc" and
    a request with a 12-byte hash, [CreateInBatches] fails and so does the
    individual insert of the first request.  The failure log line slices
    [commit.Hash[:8]] and panics: the call does not return, one insert only
    has been attempted (the second request never is), and no counts are
    reported. *)
Theorem C5_fallback_short_hash_panics :
  let o := BatchCreate inserts_fail empty_db [req_short; req_a1] in
  out_result o = Panicked /\
  List.filter is_insert (out_ops o)
  = [OpCreateInBatches [toEntity req_short; toEntity req_a1] 50;
     OpCreate (toEntity req_short)] /\
  List.filter (λ e, match e with InfoIndividualResults _ _ => true
                              | _ => false end) (out_log o) = [].
Proof. vm_compute. repeat split. Qed.

(** *** Idempotence of a clean call *)

Lemma newRequests_nil_iff f db first rest :
  find_err f = false ->
  (newRequests f db (first :: rest) = [] <->
   forall r, r ∈ first :: rest -> present_under db (ReleaseID first) r).
Proof.
  intros Hf. split.
  - intros Hnil r Hr. apply (classified_present_iff f db first rest r Hf Hr).
    rewrite Hnil. apply not_elem_of_nil.
  - intros Hall. apply elem_of_nil_inv. intros r Hr.
    pose proof Hr as Hr'. apply newRequests_spec in Hr' as [Hin _].
    exact (proj2 (classified_present_iff f db first rest r Hf Hin)
                 (Hall r Hin) Hr).
Qed.

(** Rows kept, new requests stored: every request of a one-release batch
    is then present under that release. *)
Lemma stored_or_existing f db db' first rest :
  (forall r, r ∈ first :: rest -> ReleaseID r = ReleaseID first) ->
  (forall c, c ∈ rows db -> c ∈ rows db') ->
  (forall r, r ∈ newRequests f db (first :: rest) ->
     exists c', c' ∈ rows db' /\ same_data (toEntity r) c') ->
  forall r, r ∈ first :: rest -> present_under db' (ReleaseID first) r.
Proof.
  intros Hrel Hkeep Hnew r Hr.
  destruct (is_existing (existingMap (existingCommits f db (first :: rest))) r)
    eqn:E.
  - apply is_existing_spec in E as (c & Hc & Hh).
    destruct (find_err f) eqn:Hf.
    + rewrite (existingCommits_error _ _ _ Hf) in Hc.
      apply elem_of_nil in Hc as [].
    + rewrite (existingCommits_query _ _ _ _ Hf) in Hc.
      apply db_find_spec in Hc as (Hrow & _ & Hrid).
      exists c. auto.
  - destruct (Hnew r) as (c' & Hc' & Hh & _ & Hrid).
    { apply newRequests_spec. auto. }
    exists c'. simpl in *. rewrite Hrid, Hh. auto.
Qed.

(** A call that returns without error and logs no failed individual insert
    leaves every request of a one-release batch in the table. *)
Lemma clean_call_stores_all f db first rest (resp : list CommitResponse) :
  (forall r, r ∈ first :: rest -> ReleaseID r = ReleaseID first) ->
  out_result (BatchCreate f db (first :: rest)) = Returned resp ->
  individual_failures (out_log (BatchCreate f db (first :: rest))) = 0 ->
  forall r, r ∈ first :: rest ->
    present_under (out_db (BatchCreate f db (first :: rest)))
                  (ReleaseID first) r.
Proof.
  intros Hrel Hres Hlog.
  destruct (newRequests f db (first :: rest)) as [|n0 ns] eqn:Hnew.
  - rewrite (BatchCreate_all_present _ _ _ _ Hnew). simpl.
    destruct (find_err f) eqn:Hf.
    + rewrite (newRequests_error _ _ _ Hf) in Hnew. discriminate.
    + exact (proj1 (newRequests_nil_iff f db first rest Hf) Hnew).
  - destruct (batch_err f) eqn:Hb.
    + rewrite (BatchCreate_fallback _ _ _ _ _ _ Hnew Hb) in *.
      unfold fallback in *.
      destruct (individual_inserts _ _ _ _) as [st | st] eqn:Hloop;
        [| discriminate].
      pose proof (fb_done_log _ _ _ _ _ Hloop) as Hl.
      pose proof (fb_done_rows _ _ _ _ _ Hloop) as [Hkeep Hall].
      cbn [fb_log fb_errors fb_db] in Hl, Hkeep, Hall.
      rewrite individual_failures_app, head_log_failures in Hl.
      change (individual_failures [ErrorBatchCreate; InfoTryIndividual])
        with 0 in Hl.
      assert (Herr : fb_errors st = 0).
      { destruct (refetch_err f); cbn [out_log] in Hlog;
          rewrite !individual_failures_app in Hlog;
          change (individual_failures [InfoIndividualResults _ _])
            with 0 in Hlog;
          try change (individual_failures [ErrorRetrieve]) with 0 in Hlog;
          lia. }
      assert (Hout : out_db (if refetch_err f
                then mkOutcome (fb_db st) (Failed ErrRetrieve)
                       ((fb_ops st ++ [OpFindByRelease (ReleaseID n0)])
                        ++ [OpRollback; OpRollback])
                       ((fb_log st ++ [InfoIndividualResults (fb_success st)
                                         (fb_errors st)]) ++ [ErrorRetrieve])
                else mkOutcome (fb_db st)
                       (Returned (map toResponse
                          (db_find_by_release (fb_db st) (ReleaseID n0))))
                       ((fb_ops st ++ [OpFindByRelease (ReleaseID n0)])
                        ++ [OpRollback; OpRollback])
                       (fb_log st ++ [InfoIndividualResults (fb_success st)
                                        (fb_errors st)])) = fb_db st)
        by (destruct (refetch_err f); reflexivity).
      rewrite Hout.
      apply (stored_or_existing f db (fb_db st) first rest Hrel Hkeep).
      rewrite Hnew. apply Hall. exact Herr.
    + destruct (commit_err f) eqn:Hc.
      * destruct (BatchCreate_commit_failed _ _ _ _ _ _ Hnew Hb Hc) as [_ Hfail].
        congruence.
      * rewrite (BatchCreate_committed _ _ _ _ _ _ Hnew Hb Hc).
        destruct (db_create_all_spec (map toEntity (n0 :: ns)) db)
          as (Hrows & Hdata & _).
        apply (stored_or_existing f db
                 (fst (db_create_all db (map toEntity (n0 :: ns))))
                 first rest Hrel).
        -- intros c Hc'. rewrite Hrows. apply elem_of_app. auto.
        -- rewrite Hnew. intros r Hr.
           destruct (Forall2_same_data_elem _ _ (toEntity r) Hdata)
             as (c' & Hc' & Hd).
           { apply elem_of_map. eauto. }
           exists c'. split; [| exact Hd].
           rewrite Hrows. apply elem_of_app. auto.
Qed.

(** C2 as stated fails, in two ways.  (a) The table is empty, the
    first call stores the one request of the batch and returns without
    error; during the second call with the same batch the existence query
    fails, the code goes on with an empty set of existing rows, and the
    request is written a second time.  (b) In the first call the batch
    insert and the individual insert both fail; the call still returns
    without error (an empty result); the second call, on a database that
    answers every statement, finds the request absent and writes it. *)
Lemma C2_second_call_writes_again :
  (let o1 := BatchCreate no_faults empty_db [req_a1] in
   let o2 := BatchCreate find_fails (out_db o1) [req_a1] in
   out_result o1 = Returned [mkResponse 1 "aaaaaaaaaaaa" "first" 1] /\
   individual_failures (out_log o1) = 0 /\
   out_result o2 = Returned [mkResponse 2 "aaaaaaaaaaaa" "first" 1] /\
   deduplicated find_fails (out_db o1) [req_a1] = 0 /\
   rows (out_db o2) = [mkCommit 1 "aaaaaaaaaaaa" "first" 1;
                       mkCommit 2 "aaaaaaaaaaaa" "first" 1]) /\
  (let o1 := BatchCreate inserts_fail empty_db [req_a1] in
   let o2 := BatchCreate no_faults (out_db o1) [req_a1] in
   out_result o1 = Returned [] /\
   individual_failures (out_log o1) = 1 /\
   out_result o2 = Returned [mkResponse 1 "aaaaaaaaaaaa" "first" 1] /\
   deduplicated no_faults (out_db o1) [req_a1] = 0 /\
   rows (out_db o2) = [mkCommit 1 "aaaaaaaaaaaa" "first" 1]).
Proof. vm_compute. repeat split. Qed.

(** C2 (amended). Dedup idempotence: for a non-empty batch whose requests
    share one release, if a call returns without error and logs no failed
    individual insert, then a second call with the same batch whose
    existence query succeeds classifies every request as already present
    (deduplicated = len(batch)), returns an empty result without error,
    sends no insert statement, and leaves the table as it was. *)
Theorem C2_dedup_idempotence :
  forall (f1 f2 : Faults) (db : DB) (first : CreateCommitRequest)
         (rest : list CreateCommitRequest) (resp : list CommitResponse),
    (forall r, r ∈ first :: rest -> ReleaseID r = ReleaseID first) ->
    out_result (BatchCreate f1 db (first :: rest)) = Returned resp ->
    individual_failures (out_log (BatchCreate f1 db (first :: rest))) = 0 ->
    find_err f2 = false ->
    let db1 := out_db (BatchCreate f1 db (first :: rest)) in
    let o2 := BatchCreate f2 db1 (first :: rest) in
    newRequests f2 db1 (first :: rest) = [] /\
    deduplicated f2 db1 (first :: rest) = len (first :: rest) /\
    out_result o2 = Returned [] /\
    out_db o2 = db1 /\
    List.filter is_insert (out_ops o2) = [].
Proof.
  intros f1 f2 db first rest resp Hrel Hres Hlog Hf2 db1 o2.
  assert (Hnil : newRequests f2 db1 (first :: rest) = []).
  { apply newRequests_nil_iff; [exact Hf2 |].
    apply (clean_call_stores_all f1 db first rest resp); assumption. }
  unfold o2, deduplicated.
  rewrite (BatchCreate_all_present _ _ _ _ Hnil), Hnil.
  simpl. repeat split; try reflexivity; unfold len; simpl; lia.
Qed.

(** The hypotheses of C2 hold on the two-request batch of release 1. *)
Lemma C2_dedup_idempotence_witness :
  let batch := [req_a1; mkRequest "cccccccccccc" "third" 1] in
  let db1 := out_db (BatchCreate no_faults empty_db batch) in
  newRequests no_faults db1 batch = [] /\
  deduplicated no_faults db1 batch = len batch /\
  out_result (BatchCreate no_faults db1 batch) = Returned [] /\
  out_db (BatchCreate no_faults db1 batch) = db1 /\
  List.filter is_insert (out_ops (BatchCreate no_faults db1 batch)) = [].
Proof.
  refine (C2_dedup_idempotence no_faults no_faults empty_db req_a1
            [mkRequest "cccccccccccc" "third" 1]
            [mkResponse 1 "aaaaaaaaaaaa" "first" 1;
             mkResponse 2 "cccccccccccc" "third" 1] _ _ _ _).
  - intros r Hr. apply elem_of_cons in Hr as [-> | Hr]; [reflexivity |].
    apply list_elem_of_singleton in Hr as ->. reflexivity.
  - vm_compute. reflexivity.
  - vm_compute. reflexivity.
  - reflexivity.
Defined.

(** *** The head of every trace *)

(** On every path a call first opens the transaction, sends the existence
    query, writes the head of the log, and, unless every request is
    classified as present, sends the batch insert of the new requests. *)
Lemma BatchCreate_trace f db first rest :
  exists more_ops more_log,
    out_ops (BatchCreate f db (first :: rest))
    = head_ops first rest ++ batch_op (newRequests f db (first :: rest))
      ++ more_ops /\
    out_log (BatchCreate f db (first :: rest))
    = head_log f db (first :: rest) ++ more_log.
Proof.
  destruct (newRequests f db (first :: rest)) as [|n0 ns] eqn:Hnew.
  - rewrite (BatchCreate_all_present _ _ _ _ Hnew). simpl. eauto.
  - destruct (batch_err f) eqn:Hb.
    + rewrite (BatchCreate_fallback _ _ _ _ _ _ Hnew Hb). unfold fallback.
      destruct (fb_prefix (n0 :: ns) f 0%nat
                  (mkFallback db 0 0
                     ((head_ops first rest
                       ++ [OpCreateInBatches (map toEntity (n0 :: ns)) 50])
                      ++ [OpRollback; OpBegin])
                     (head_log f db (first :: rest)
                      ++ [ErrorBatchCreate; InfoTryIndividual])))
        as (mo & ml & Ho & Hl).
      destruct (individual_inserts _ _ _ _) as [st | st];
        cbn [fb_state fb_ops fb_log] in Ho, Hl;
        [destruct (refetch_err f) |]; cbn [out_ops out_log];
        rewrite Ho, Hl; cbn [batch_op]; rewrite <- !app_assoc; eauto.
    + destruct (commit_err f) eqn:Hc.
      * unfold BatchCreate. fold (head_ops first rest).
        rewrite Hnew, Hb, Hc. cbn [out_ops out_log batch_op].
        fold (newRequests f db (first :: rest)).
        exists [OpCommit; OpRollback], [ErrorCommitTx].
        unfold head_log. rewrite Hnew, <- !app_assoc. auto.
      * rewrite (BatchCreate_committed _ _ _ _ _ _ Hnew Hb Hc).
        cbn [out_ops out_log batch_op]. eauto.
Qed.

(** C7 as stated fails: the table is empty, the batch holds two
    requests and the existence query fails; both requests are inserted in
    that same call. *)
Lemma C7_query_error_still_inserts :
  let o := BatchCreate find_fails empty_db [req_a1; req_b2] in
  out_log o = [DebugSample 0 "aaaaaaaaaaaa" 5 1;
               DebugSample 1 "bbbbbbbbbbbb" 6 2;
               WarnCheckExisting; InfoFiltered 2 0 2; InfoSaved 2] /\
  out_result o = Returned [mkResponse 1 "aaaaaaaaaaaa" "first" 1;
                           mkResponse 2 "bbbbbbbbbbbb" "second" 2] /\
  rows (out_db o) = [mkCommit 1 "aaaaaaaaaaaa" "first" 1;
                     mkCommit 2 "bbbbbbbbbbbb" "second" 2].
Proof. vm_compute. repeat split. Qed.

(** C7 (amended). A failure of the existence query does not end the call:
    the warning is logged, no row counts as existing, every request of the
    batch is treated as new and the batch insert of all of them is sent;
    the query's error is not returned: when the insert and the commit
    succeed the call returns the responses of all requests, which are then
    rows of the table. *)
Theorem C7_query_error_continues :
  forall (f : Faults) (db : DB) (first : CreateCommitRequest)
         (rest : list CreateCommitRequest),
    find_err f = true ->
    let requests := first :: rest in
    let o := BatchCreate f db requests in
    let saved := snd (db_create_all db (map toEntity requests)) in
    existingCommits f db requests = [] /\
    newRequests f db requests = requests /\
    WarnCheckExisting ∈ out_log o /\
    OpCreateInBatches (map toEntity requests) 50 ∈ out_ops o /\
    (batch_err f = false -> commit_err f = false ->
       out_result o = Returned (map toResponse saved) /\
       rows (out_db o) = rows db ++ saved /\
       Forall2 same_data (map toEntity requests) saved).
Proof.
  intros f db first rest Hf requests o saved.
  pose proof (newRequests_error f db requests Hf) as Hnew.
  destruct (BatchCreate_trace f db first rest) as (mo & ml & Ho & Hl).
  fold requests in Ho, Hl. fold o in Ho, Hl.
  split; [apply existingCommits_error, Hf |].
  split; [exact Hnew |].
  split; [| split].
  - rewrite Hl. unfold head_log. rewrite Hf.
    rewrite !elem_of_app. left. right. left.
    apply list_elem_of_singleton. reflexivity.
  - rewrite Ho, Hnew. unfold requests at 1. cbn [batch_op].
    rewrite !elem_of_app. right. left.
    apply list_elem_of_singleton. reflexivity.
  - intros Hb Hc. unfold o, requests in *.
    rewrite (BatchCreate_committed _ _ _ _ _ _ Hnew Hb Hc). cbn [out_result out_db].
    destruct (db_create_all_spec (map toEntity (first :: rest)) db)
      as (Hrows & Hdata & _).
    auto.
Qed.

(** The hypothesis of C7 holds when the query fails on the empty table. *)
Lemma C7_query_error_continues_witness :
  existingCommits find_fails empty_db [req_a1; req_b2] = [] /\
  newRequests find_fails empty_db [req_a1; req_b2] = [req_a1; req_b2] /\
  WarnCheckExisting ∈ out_log (BatchCreate find_fails empty_db [req_a1; req_b2]) /\
  OpCreateInBatches (map toEntity [req_a1; req_b2]) 50
    ∈ out_ops (BatchCreate find_fails empty_db [req_a1; req_b2]).
Proof.
  pose proof (C7_query_error_continues find_fails empty_db req_a1 [req_b2]
                eq_refl) as (H1 & H2 & H3 & H4 & _).
  exact (conj H1 (conj H2 (conj H3 H4))).
Defined.

(** C10. The duplicate check is scoped to the first request's release:
    for every non-empty batch, (a) the statement sent after opening the
    transaction is the query for the hashes of the whole batch under the
    release of the first request; (b) when it succeeds, the rows it yields
    are the rows of the table whose hash is among the batch's hashes and
    whose release is that of the first request, and a request is classified
    as a duplicate exactly when such a row carries its hash; (c) hence a
    request of another release whose hash is stored under its own release,
    and not under the first request's, is classified as new, is part of the
    batch insert, and, when insert and commit succeed, is stored again. *)
Theorem C10_dedup_scoped_to_first_release :
  forall (f : Faults) (db : DB) (first : CreateCommitRequest)
         (rest : list CreateCommitRequest),
    let requests := first :: rest in
    let o := BatchCreate f db requests in
    let saved := snd (db_create_all db
                        (map toEntity (newRequests f db requests))) in
    take 2 (out_ops o) = [OpBegin; OpFind (map Hash requests) (ReleaseID first)]
    /\
    (find_err f = false ->
       (forall c, c ∈ existingCommits f db requests <->
                  c ∈ rows db /\ commit_Hash c ∈ map Hash requests
                  /\ commit_ReleaseID c = ReleaseID first) /\
       (forall r, r ∈ requests ->
          (r ∉ newRequests f db requests <->
           present_under db (ReleaseID first) r)))
    /\
    (forall r, r ∈ requests ->
       ReleaseID r <> ReleaseID first ->
       present_under db (ReleaseID r) r ->
       ~ present_under db (ReleaseID first) r ->
       r ∈ newRequests f db requests /\
       OpCreateInBatches (map toEntity (newRequests f db requests)) 50
         ∈ out_ops o /\
       (batch_err f = false -> commit_err f = false ->
          rows (out_db o) = rows db ++ saved /\
          exists c', c' ∈ saved /\ same_data (toEntity r) c')).
Proof.
  intros f db first rest requests o saved.
  destruct (BatchCreate_trace f db first rest) as (mo & ml & Ho & _).
  fold requests in Ho. fold o in Ho.
  split; [rewrite Ho; reflexivity |]. split.
  - intros Hf. split.
    + intros c. unfold requests.
      rewrite (existingCommits_query _ _ _ _ Hf). apply db_find_spec.
    + intros r Hr. apply classified_present_iff; assumption.
  - intros r Hr Hother Hown Hnot.
    assert (Hnew : r ∈ newRequests f db requests).
    { destruct (find_err f) eqn:Hf.
      - rewrite (newRequests_error _ _ _ Hf). exact Hr.
      - apply newRequests_spec. split; [exact Hr |].
        destruct (is_existing _ r) eqn:E; [| reflexivity].
        exfalso. apply Hnot.
        apply (classified_present_iff f db first rest r Hf Hr).
        intros [_ Hfalse]%newRequests_spec.
        unfold requests in E. rewrite E in Hfalse. discriminate. }
    split; [exact Hnew |].
    destruct (newRequests f db requests) as [|n0 ns] eqn:E;
      [apply elem_of_nil in Hnew as [] |].
    split.
    + rewrite Ho. cbn [batch_op]. rewrite !elem_of_app. right. left.
      apply list_elem_of_singleton. reflexivity.
    + intros Hb Hc. unfold o, requests in *.
      rewrite (BatchCreate_committed _ _ _ _ _ _ E Hb Hc). cbn [out_db].
      destruct (db_create_all_spec (map toEntity (n0 :: ns)) db)
        as (Hrows & Hdata & _).
      split; [exact Hrows |].
      apply (Forall2_same_data_elem _ _ (toEntity r) Hdata).
      apply elem_of_map. eauto.
Qed.

(** The batch of C10 on data: release 2's commit is in the table; a batch
    led by a request of release 1 stores it a second time. *)
Example mixed_release_batch_inserts_again :
  let db := mkDB [mkCommit 1 "bbbbbbbbbbbb" "second" 2] 2 in
  let o := BatchCreate no_faults db [req_a1; req_b2] in
  out_ops o = [OpBegin; OpFind ["aaaaaaaaaaaa"; "bbbbbbbbbbbb"] 1;
               OpCreateInBatches [toEntity req_a1; toEntity req_b2] 50;
               OpCommit; OpRollback] /\
  rows (out_db o) = [mkCommit 1 "bbbbbbbbbbbb" "second" 2;
                     mkCommit 2 "aaaaaaaaaaaa" "first" 1;
                     mkCommit 3 "bbbbbbbbbbbb" "second" 2].
Proof. vm_compute. repeat split. Qed.

End PersistProperties.

(** ** The circuit breaker *)

Section BreakerProperties.

Import Breaker.
Implicit Types (cb : CircuitBreaker) (now : Z) (ok : bool).

(** The trip predicate of the source in integers: at least 3 requests, and
    failures at least six tenths of the requests. *)
Lemma ReadyToTrip_spec (c : Counts) :
  0 <= TotalFailures c ->
  (ReadyToTrip c = true <->
   3 <= Requests c /\ 6 * Requests c <= 10 * TotalFailures c).
Proof.
  intros Hf. unfold ReadyToTrip, failureRatio.
  rewrite andb_true_iff, Z.leb_le, Qle_bool_iff.
  destruct c as [r fl]. simpl in *. unfold Qle, Qdiv, Qmult, Qinv. simpl.
  destruct r as [|p|p]; simpl; split; intros [H1 H2]; split; try lia.
Qed.

(** A call in the Closed state before the rolling window ends. *)
Lemma execClosed_in_window cb now ok :
  now < windowStart cb + Interval ->
  execClosed cb now ok
  = let c := onOutcome (counts cb) ok in
    if ReadyToTrip c then mkBreaker Open c now (windowStart cb) 0
    else mkBreaker Closed c (openedAt cb) (windowStart cb) 0.
Proof.
  intros H. unfold execClosed.
  destruct (Z.leb_spec (windowStart cb + Interval) now); [lia | reflexivity].
Qed.



(** The three orders of two failures among three calls, 1ms apart, and the
    calls refused while the breaker is open. *)
Example trip_in_every_order :
  let ms := 1000000 in
  state (fst (run_calls (NewCircuitBreaker 0)
                [(1 * ms, false); (2 * ms, false); (3 * ms, true)])) = Open /\
  state (fst (run_calls (NewCircuitBreaker 0)
                [(1 * ms, false); (2 * ms, true); (3 * ms, false)])) = Open /\
  state (fst (run_calls (NewCircuitBreaker 0)
                [(1 * ms, true); (2 * ms, false); (3 * ms, false)])) = Open /\
  snd (run_calls (NewCircuitBreaker 0)
         [(1 * ms, false); (2 * ms, true); (3 * ms, false); (4 * ms, true);
          (30 * Second, true)])
  = [Invoked false; Invoked true; Invoked false; ErrOpenState; ErrOpenState].
Proof. vm_compute. repeat split. Qed.

End BreakerProperties.

(** ** The crawling coordinator *)

Section CoordinatorProperties.

Import Coordinator.
Context {Data : Type}.
Variable marshal : option Data -> string.
Implicit Types (c : CrawlingCoordinator Data) (env : Replies Data)
         (s : Stage) (t : list Event).

Lemma calls_app s t t' : calls s (t ++ t') = (calls s t + calls s t')%nat.
Proof. unfold calls. rewrite List.filter_app, length_app. reflexivity. Qed.

Lemma calls_logged s (msg : string) : calls s [Logged msg] = 0%nat.
Proof. reflexivity. Qed.

(** Step 1 calls the repository stage only, and only without a cache. *)
Lemma crawlStep1_calls c env s :
  calls s (snd (crawlStep1 c env))
  = match s with
    | Repo => if is_nil (repoCache c) then 1%nat else 0%nat
    | _ => 0%nat
    end.
Proof.
  unfold crawlStep1.
  destruct (is_nil (repoCache c)), (repoReply env), s; reflexivity.
Qed.


(** Step 1 leaves the release cache alone and clears the release pause
    exactly when the repositories were fetched. *)
Lemma crawlStep1_release c env :
  let c1 := fst (fst (crawlStep1 c env)) in
  let repoChanged := snd (fst (crawlStep1 c env)) in
  releaseCache c1 = releaseCache c /\
  releasePaused c1 = (if repoChanged then false else releasePaused c).
Proof.
  unfold crawlStep1. destruct (is_nil (repoCache c)), (repoReply env);
    simpl; auto.
Qed.

(** Step 2 calls the release stage once when it should, else never. *)
Lemma crawlStep2_calls c (repoChanged : bool) env s :
  calls s (snd (crawlStep2 marshal c repoChanged env))
  = match s with
    | Release => if shouldCrawlReleases c repoChanged then 1%nat else 0%nat
    | _ => 0%nat
    end.
Proof.
  unfold crawlStep2.
  destruct (shouldCrawlReleases c repoChanged); cbn [negb].
  - destruct (releaseReply env) as [|d]; [destruct s; reflexivity |].
    destruct (hasDataChanged marshal (releaseCache c) d);
      [destruct s; reflexivity |].
    cbv zeta. cbn [snd]. rewrite calls_app.
    destruct (stabilityThreshold c <=? _); destruct s; reflexivity.
  - destruct s; reflexivity.
Qed.

(** Step 3 calls the commit stage only. *)
Lemma crawlStep3_calls c (releaseChanged : bool) env s :
  calls s (snd (crawlStep3 marshal c releaseChanged env))
  = match s with
    | Commit => if shouldCrawlCommits c releaseChanged then 1%nat else 0%nat
    | _ => 0%nat
    end.
Proof.
  unfold crawlStep3.
  destruct (shouldCrawlCommits c releaseChanged); cbn [negb].
  - destruct (commitReply env) as [|d]; [destruct s; reflexivity |].
    destruct (hasDataChanged marshal (commitCache c) d);
      [destruct s; reflexivity |].
    cbv zeta. cbn [snd]. rewrite calls_app.
    destruct (stabilityThreshold c <=? _); destruct s; reflexivity.
  - destruct s; reflexivity.
Qed.

(** The calls of a cycle are those of its three steps. *)
Lemma CrawlAll_calls c env s :
  let c1 := fst (fst (crawlStep1 c env)) in
  let repoChanged := snd (fst (crawlStep1 c env)) in
  let c2 := fst (fst (crawlStep2 marshal c1 repoChanged env)) in
  let releaseChanged := snd (fst (crawlStep2 marshal c1 repoChanged env)) in
  calls s (snd (CrawlAll marshal c env))
  = (calls s (snd (crawlStep1 c env))
     + calls s (snd (crawlStep2 marshal c1 repoChanged env))
     + calls s (snd (crawlStep3 marshal c2 releaseChanged env)))%nat.
Proof.
  unfold CrawlAll.
  destruct (crawlStep1 c env) as [[c1 repoChanged] t1]. simpl.
  destruct (crawlStep2 marshal c1 repoChanged env) as [[c2 relChanged] t2].
  simpl. destruct (crawlStep3 marshal c2 relChanged env) as [c3 t3]. simpl.
  rewrite !calls_app, calls_logged. lia.
Qed.

(** The release stage in a cycle, from the state the cycle starts in. *)
Lemma release_gate c env :
  let c1 := fst (fst (crawlStep1 c env)) in
  let repoChanged := snd (fst (crawlStep1 c env)) in
  calls Release (snd (CrawlAll marshal c env))
  = (if shouldCrawlReleases c1 repoChanged then 1 else 0)%nat /\
  shouldCrawlReleases c1 repoChanged
  = repoChanged || (is_nil (releaseCache c) && negb (releasePaused c)).
Proof.
  intros c1 repoChanged. split.
  - rewrite CrawlAll_calls.
    rewrite crawlStep1_calls, crawlStep2_calls, crawlStep3_calls.
    fold c1 repoChanged. lia.
  - destruct (crawlStep1_release c env) as [Hcache Hpause].
    fold c1 repoChanged in Hcache, Hpause.
    unfold shouldCrawlReleases. rewrite Hcache, Hpause.
    destruct repoChanged, (is_nil (releaseCache c)), (releasePaused c);
      reflexivity.
Qed.

(** C6. Stage-B change gating: in a cycle the release stage is called once
    if (the repository result changed in this cycle, or the release cache is
    empty) and the release stage is not paused when step 2 begins, and not
    at all otherwise.  [repoChanged] is set exactly when the repository
    stage was fetched, which also clears the release pause; so with the
    repositories unchanged and a release cache present the release stage is
    not called, and with the repositories changed it is called exactly
    once. *)
Theorem C6_stage_b_gating :
  forall (c : CrawlingCoordinator Data) (env : Replies Data),
    let c1 := fst (fst (crawlStep1 c env)) in
    let repoChanged := snd (fst (crawlStep1 c env)) in
    let called := calls Release (snd (CrawlAll marshal c env)) in
    called = (if (repoChanged || is_nil (releaseCache c1))
                 && negb (releasePaused c1) then 1 else 0)%nat /\
    called = (if repoChanged
                 || (is_nil (releaseCache c) && negb (releasePaused c))
              then 1 else 0)%nat /\
    (repoChanged = false -> is_nil (releaseCache c) = false ->
     called = 0%nat) /\
    (repoChanged = true -> called = 1%nat).
Proof.
  intros c env c1 repoChanged called.
  destruct (release_gate c env) as [Hcalled Hgate].
  fold c1 repoChanged called in Hcalled, Hgate.
  split; [exact Hcalled |]. rewrite Hcalled, Hgate.
  destruct repoChanged, (is_nil (releaseCache c)), (releasePaused c);
    simpl; repeat split; congruence.
Qed.








(** Start-up as [cmd/main.go] does it, with two ticks before the stop: the
    initial cycle and one cycle per tick. *)
Example boot_then_two_ticks :
  let r := startCircuitBreakerCoordinator marshal_text same_answers
             [Tick same_answers; Tick same_answers; Stop] in
  length (cycles r) = 3%nat /\ stopped r = true /\
  map (calls Release) (cycles r) = [1; 0; 0]%nat.
Proof. vm_compute. repeat split. Qed.

End CoordinatorProperties.

(** ** The theorems at concrete inputs *)

(** C1 on the queue of capacity 2: it holds two items and rejects the next. *)
Lemma C1_backpressure_invariant_witness :
  len (Queue.items Queue.two_of_three) <= 2 /\
  Queue.EnqueueCommit Queue.two_of_three "d" = (Queue.two_of_three, false).
Proof.
  pose proof (C1_backpressure_invariant 2
                [Queue.OpEnqueue "a"; Queue.OpEnqueue "b"; Queue.OpEnqueue "c"]
                "d") as (Hlen & Hfull & _).
  split.
  - apply Hlen. lia.
  - apply Hfull; [lia | reflexivity].
Defined.

(** C9 on a queue of two items: a batch of at most 5 takes both, in order. *)
Lemma C9_fifo_batch_dequeue_witness :
  Queue.items Queue.two_of_three <> [] /\
  (exists q' batch,
      Queue.dequeueCommits Queue.two_of_three false 5 = (q', Queue.DqItems batch)) /\
  len ["a"; "b"] = Z.min 5 (len (Queue.items Queue.two_of_three)).
Proof.
  assert (Hne : Queue.items Queue.two_of_three <> []) by discriminate.
  pose proof (C9_fifo_batch_dequeue Queue.two_of_three false 5 Hne) as [Hret Hspec].
  split; [exact Hne |]. split; [apply Hret; lia |].
  exact (proj1 (Hspec (Queue.dequeued Queue.two_of_three 2) ["a"; "b"] eq_refl)).
Defined.


(** C10 on a batch led by a request of release 1: the request of release 2
    is present under its own release, is classified as new, and is stored
    again. *)
Lemma C10_dedup_scoped_to_first_release_witness :
  Persist.req_b2 ∈ Persist.newRequests Persist.no_faults Persist.release2_db
                     [Persist.req_a1; Persist.req_b2] /\
  exists c', c' ∈ snd (Persist.db_create_all Persist.release2_db
                         (map Persist.toEntity
                            (Persist.newRequests Persist.no_faults Persist.release2_db
                               [Persist.req_a1; Persist.req_b2])))
             /\ Persist.commit_Hash c' = "bbbbbbbbbbbb"
             /\ Persist.commit_ReleaseID c' = 2.
Proof.
  pose proof (C10_dedup_scoped_to_first_release Persist.no_faults Persist.release2_db
                Persist.req_a1 [Persist.req_b2]) as (_ & _ & Hagain).
  destruct (Hagain Persist.req_b2) as (Hnew & _ & Hstored).
  - apply elem_of_cons. right. apply list_elem_of_singleton. reflexivity.
  - discriminate.
  - exists (Persist.mkCommit 1 "bbbbbbbbbbbb" "second" 2).
    split; [apply list_elem_of_singleton; reflexivity | split; reflexivity].
  - intros (c & Hc & _ & Hrel).
    apply list_elem_of_singleton in Hc. subst c. discriminate.
  - split; [exact Hnew |].
    destruct (Hstored eq_refl eq_refl) as (_ & c' & Hc' & Hh & _ & Hr).
    exists c'. auto.
Defined.

(* ===================================================================== *)
(** * Further properties of the code *)
(* ===================================================================== *)

Section QueueMore.

Import Queue Flow.
Context {Item : Type}.
Implicit Types (q : CommitQueue Item) (x : Item) (op : QueueOp Item).

Lemma wrap64_add_l (a b : Z) : wrap64 (wrap64 a + b) = wrap64 (a + b).
Proof.
  unfold wrap64. f_equal.
  replace ((a + 2 ^ 63) mod 2 ^ 64 - 2 ^ 63 + b + 2 ^ 63)
    with ((a + 2 ^ 63) mod 2 ^ 64 + b) by lia.
  rewrite Zplus_mod_idemp_l. f_equal. lia.
Qed.



Lemma len_cons {A : Type} (a : A) (l : list A) : len (a :: l) = len l + 1.
Proof. unfold len. simpl. lia. Qed.



End QueueMore.

Section QueueMetrics.

Import Queue Flow.
Context {Item : Type}.
Implicit Types (q : CommitQueue Item) (x : Item) (op : QueueOp Item).

Lemma dequeue_cases q d n :
  dequeueCommits q d n = (q, DqNil) \/ dequeueCommits q d n = (q, DqWait) \/
  dequeueCommits q d n = (q, DqPanic) \/
  (0 <= Z.min n (len (items q)) /\
   dequeueCommits q d n
   = (dequeued q (Z.min n (len (items q))),
      DqItems (take (Z.to_nat (Z.min n (len (items q)))) (items q)))).
Proof.
  unfold dequeueCommits. rewrite take_count_min.
  destruct (items q) as [|y l] eqn:E; [destruct d; auto |].
  rewrite <- E.
  destruct (Z.ltb_spec (Z.min n (len (items q))) 0); auto.
Qed.

Lemma len_drop (l : list Item) (n : Z) :
  0 <= n <= len l -> len (drop (Z.to_nat n) l) = len l - n.
Proof. intros H. unfold len in *. rewrite length_drop. lia. Qed.

Lemma apply_op_high_water q op : high_water q -> high_water (apply_op q op).
Proof.
  intros [Hlen Hmax]. destruct op as [x | d n | d n | n]; simpl.
  - unfold EnqueueCommit. destruct (is_full q) eqn:Hf; [split; assumption |].
    apply is_full_false in Hf. unfold high_water.
    cbn [fst enqueued items metrics maxSize MaxQueueLength].
    rewrite len_app. change (len [x]) with 1.
    destruct (Z.ltb_spec (MaxQueueLength (metrics q)) (len (items q) + 1));
      split; lia.
  - destruct (dequeue_cases q d n) as [-> | [-> | [-> | [Hn ->]]]];
      try (split; assumption).
    unfold high_water. cbn [fst dequeued items metrics maxSize MaxQueueLength].
    rewrite len_drop by lia. split; [lia | exact Hmax].
  - destruct (resume_cases q d n) as [-> | ->]; [split; assumption |].
    destruct (dequeue_cases q false n) as [-> | [-> | [-> | [Hn ->]]]];
      try (split; assumption).
    unfold high_water. cbn [fst dequeued items metrics maxSize MaxQueueLength].
    rewrite len_drop by lia. split; [lia | exact Hmax].
  - split; assumption.
Qed.

(** X2. The high-water mark: after any sequence of queue operations on a
    new queue, [MaxQueueLength] is at least the current length, and at most
    [maxSize] when that is positive. *)
Theorem X2_high_water_mark :
  forall (size : Z) (ops : list (QueueOp Item)),
    let q := run (NewCommitQueue size) ops in
    len (items q) <= MaxQueueLength (metrics q) /\
    (0 < size -> MaxQueueLength (metrics q) <= size).
Proof.
  intros size ops q.
  assert (Hrun : forall (l : list (QueueOp Item)) q0,
             high_water q0 -> high_water (run q0 l)).
  { induction l as [|op l IH]; intros q0 H0; [exact H0 |].
    unfold run in *. simpl. apply IH, apply_op_high_water, H0. }
  assert (H : high_water q).
  { apply Hrun. split; simpl; unfold len; simpl; lia. }
  destruct H as [H1 H2]. split; [exact H1 |].
  unfold q in H2. rewrite run_maxSize in H2. exact H2.
Qed.

End QueueMetrics.

Section QueueFlow.

Import Queue Flow.
Context {Item : Type}.
Implicit Types (q : CommitQueue Item) (x : Item) (op : QueueOp Item)
         (m : Moved Item).

Lemma dequeued_conserved q (c k : Z) :
  conserved q k -> k < 2 ^ 63 -> 0 <= c <= len (items q) ->
  conserved (dequeued q c) (k + 1).
Proof.
  intros (Hd & He & Hk) Hbound Hc. unfold conserved.
  cbn [dequeued items metrics EnqueueCount DequeueCount].
  rewrite len_drop by lia.
  rewrite wrap64_id by lia. lia.
Qed.

Lemma apply_op_conserved q op (k : Z) :
  conserved q k -> k + 1 < 2 ^ 63 -> conserved (apply_op q op) (k + 1).
Proof.
  intros Hc Hbound.
  assert (Hweak : conserved q (k + 1)) by (unfold conserved in *; lia).
  destruct op as [x | d n | d n | n]; simpl.
  - unfold EnqueueCommit. destruct (is_full q); [exact Hweak |].
    destruct Hc as (Hd & He & Hk). unfold conserved.
    cbn [fst enqueued items metrics EnqueueCount DequeueCount].
    rewrite len_app. change (len [x]) with 1.
    pose proof (len_nonneg (items q)).
    rewrite wrap64_id by lia. lia.
  - destruct (dequeue_cases q d n) as [-> | [-> | [-> | [Hn ->]]]];
      try exact Hweak.
    apply dequeued_conserved; [exact Hc | lia | lia].
  - destruct (resume_cases q d n) as [-> | ->]; [exact Hweak |].
    destruct (dequeue_cases q false n) as [-> | [-> | [-> | [Hn ->]]]];
      try exact Hweak.
    apply dequeued_conserved; [exact Hc | lia | lia].
  - exact Hweak.
Qed.

Lemma run_conserved (ops : list (QueueOp Item)) q (k : Z) :
  conserved q k -> k + len ops < 2 ^ 63 ->
  conserved (run q ops) (k + len ops).
Proof.
  revert q k. induction ops as [|op ops IH]; intros q k Hc Hbound.
  - change (len (@nil (QueueOp Item))) with 0. rewrite Z.add_0_r. exact Hc.
  - rewrite len_cons in *. unfold run in *. simpl.
    replace (k + (len ops + 1)) with (k + 1 + len ops) by lia.
    pose proof (len_nonneg ops).
    apply IH; [apply apply_op_conserved; [exact Hc | lia] | lia].
Qed.

(** X3. Conservation of requests in the metrics: after fewer than 2^63
    operations on a new queue, [EnqueueCount - DequeueCount] is the number
    of requests waiting in the queue, and neither counter is negative. *)
Theorem X3_enqueued_minus_dequeued_is_length :
  forall (size : Z) (ops : list (QueueOp Item)),
    len ops < 2 ^ 63 ->
    let q := run (NewCommitQueue size) ops in
    EnqueueCount (metrics q) - DequeueCount (metrics q) = len (items q) /\
    0 <= DequeueCount (metrics q) <= EnqueueCount (metrics q).
Proof.
  intros size ops Hbound q.
  destruct (run_conserved ops (NewCommitQueue size) 0) as (Hd & He & _).
  - unfold conserved. simpl. unfold len. simpl. lia.
  - lia.
  - fold q in Hd, He. pose proof (len_nonneg (items q)). lia.
Qed.

Lemma apply_io_queue q m op : fst (apply_io (q, m) op) = apply_op q op.
Proof.
  destruct op as [x | d n | d n | n]; simpl.
  - destruct (EnqueueCommit q x); reflexivity.
  - destruct (dequeueCommits q d n); reflexivity.
  - destruct (resumeDequeue q d n); reflexivity.
  - reflexivity.
Qed.

Lemma deliver_in_order base q m d n :
  in_order base (q, m) ->
  in_order base (fst (dequeueCommits q d n),
                 deliver m (snd (dequeueCommits q d n))).
Proof.
  unfold in_order. cbn [fst snd]. intros H.
  destruct (dequeue_cases q d n) as [-> | [-> | [-> | [Hn ->]]]];
    try exact H.
  cbn [fst snd deliver dequeued items accepted delivered].
  rewrite <- app_assoc, take_drop. exact H.
Qed.

Lemma apply_io_in_order base (st : CommitQueue Item * Moved Item) op :
  in_order base st -> in_order base (apply_io st op).
Proof.
  destruct st as [q m]. intros H.
  destruct op as [x | d n | d n | n]; cbn [apply_io].
  - unfold EnqueueCommit. destruct (is_full q); [exact H |].
    unfold in_order in *. cbn [fst snd enqueued items accepted delivered] in *.
    rewrite !app_assoc, H. reflexivity.
  - pose proof (deliver_in_order base q m d n H) as H'.
    destruct (dequeueCommits q d n); exact H'.
  - unfold resumeDequeue. destruct d; [exact H |].
    pose proof (deliver_in_order base q m false n H) as H'.
    destruct (dequeueCommits q false n); exact H'.
  - exact H.
Qed.

Lemma run_io_spec (ops : list (QueueOp Item)) base
    (st : CommitQueue Item * Moved Item) :
  in_order base st ->
  in_order base (fold_left apply_io ops st) /\
  fst (fold_left apply_io ops st) = run (fst st) ops.
Proof.
  revert st. induction ops as [|op ops IH]; intros st H; [auto |].
  simpl. destruct (IH (apply_io st op) (apply_io_in_order base st op H))
    as [H1 H2].
  split; [exact H1 |]. rewrite H2. destruct st as [q m].
  rewrite apply_io_queue. reflexivity.
Qed.

(** X4. First in, first out, across calls: after any sequence of queue
    operations on a new queue, the requests handed to workers (batch after
    batch), followed by the requests still waiting, are exactly the accepted
    requests in the order they were enqueued. *)
Theorem X4_fifo_across_calls :
  forall (size : Z) (ops : list (QueueOp Item)),
    let st := run_io (NewCommitQueue size) ops in
    fst st = run (NewCommitQueue size) ops /\
    delivered (snd st) ++ items (fst st) = accepted (snd st).
Proof.
  intros size ops st.
  destruct (run_io_spec ops [] (NewCommitQueue size, mkMoved [] []))
    as [H1 H2]; [reflexivity |].
  split; [exact H2 | exact H1].
Qed.

(** X5. The processing counter around a batch: when a dequeue hands out a
    batch and the worker is done with it, the counter is back at the value
    it had before the dequeue. *)
Theorem X5_processing_restored :
  forall (q q' : CommitQueue Item) (ctxDone : bool) (maxCount : Z)
         (batch : list Item),
    dequeueCommits q ctxDone maxCount = (q', DqItems batch) ->
    - 2 ^ 63 <= processing q < 2 ^ 63 ->
    processing q' = wrap64 (processing q + len batch) /\
    processing (finishBatch q' (len batch)) = processing q /\
    items (finishBatch q' (len batch)) = items q'.
Proof.
  intros q q' ctxDone maxCount batch Hd Hrange.
  apply dequeue_items_inv in Hd as (Hn & -> & ->).
  set (n := Z.min maxCount (len (items q))) in *.
  assert (Hlen : len (take (Z.to_nat n) (items q)) = n).
  { unfold len. rewrite length_take. unfold n, len in *. lia. }
  rewrite Hlen. cbn [finishBatch dequeued processing items].
  repeat split.
  replace (wrap64 (processing q + n) - n)
    with (wrap64 (processing q + n) + - n) by lia.
  rewrite wrap64_add_l.
  replace (processing q + n + - n) with (processing q) by lia.
  apply wrap64_id. exact Hrange.
Qed.

End QueueFlow.

Section WorkerProperties.

Import Worker.
Context {Store Req : Type}.
Variable BatchCreate : nat -> Store -> list Req -> Store * CallResult.

Lemma smaller_batches_spec (commits : list Req) (fuel i k : nat)
    (st : Store) :
  never_panics BatchCreate ->
  (length commits <= i + 10 * fuel)%nat ->
  let r := smaller_batches BatchCreate fuel i k commits st in
  concat (submitted r) = drop i commits /\
  Forall (λ b, (1 <= length b <= 10)%nat) (submitted r) /\
  (length commits <= i + 10 * length (submitted r)
   < length commits + 10 \/ 
   (length commits <= i /\ submitted r = []))%nat /\
  panicked r = false.
Proof.
  intros Hnp. revert i k st.
  induction fuel as [|fuel IH]; intros i k st Hfuel.
  - simpl. rewrite drop_ge by lia. repeat split; auto. right. split; [lia | auto].
  - cbn [smaller_batches].
    destruct (Nat.ltb_spec i (length commits)) as [Hlt | Hge].
    + set (batch_end := if (length commits <? i + 10)%nat
                        then length commits else (i + 10)%nat).
      set (smallBatch := take (batch_end - i) (drop i commits)).
      pose proof (Hnp k st smallBatch) as Hk.
      destruct (BatchCreate k st smallBatch) as [st' res].
      specialize (IH (i + 10)%nat (S k) st' ltac:(lia)).
      cbv zeta in IH.
      destruct IH as (Hcat & Hall & Hcount & Hpan).
      assert (Hend : (batch_end = Nat.min (i + 10) (length commits))%nat).
      { unfold batch_end.
        destruct (Nat.ltb_spec (length commits) (i + 10)); lia. }
      assert (Hlen : (length smallBatch = batch_end - i)%nat).
      { unfold smallBatch. rewrite length_take, length_drop. lia. }
      assert (Hsplit : drop i commits = smallBatch ++ drop (i + 10) commits).
      { unfold smallBatch.
        rewrite <- (take_drop (batch_end - i) (drop i commits)) at 1.
        f_equal. rewrite drop_drop.
        destruct (Nat.le_gt_cases (i + 10) (length commits)).
        - f_equal. lia.
        - rewrite !drop_ge by lia. reflexivity. }
      destruct res; cbn [snd] in Hk; try congruence;
        cbn [submitted panicked concat];
        (split; [rewrite Hcat; symmetry; exact Hsplit |]);
        (split; [constructor; [lia | exact Hall] |]);
        (split; [| exact Hpan]); cbn [length];
        left; destruct Hcount as [Hc | [Hc Hnil]];
        try rewrite Hnil; cbn [length]; lia.
    + simpl. rewrite drop_ge by lia. repeat split; auto.
Qed.

(** X6. The worker's retry in smaller batches: when the call on the whole
    batch returns an error (and no call panics), [processCommits] submits
    the whole batch and then every commit of it once more, in order, in
    batches of at least 1 and at most 10 commits, as few as that allows;
    a failing small batch does not stop the ones after it. *)
Theorem X6_retry_in_batches_of_ten :
  forall (commits : list Req) (st st' : Store),
    never_panics BatchCreate ->
    commits <> [] ->
    BatchCreate 0 st commits = (st', CallErr) ->
    let r := processCommits BatchCreate commits st in
    exists small,
      submitted r = commits :: small /\
      concat small = commits /\
      Forall (λ b, (1 <= length b <= 10)%nat) small /\
      (length commits <= 10 * length small < length commits + 10)%nat /\
      panicked r = false.
Proof.
  intros commits st st' Hnp Hne Hcall r. unfold r, processCommits.
  destruct commits as [|c0 cs] eqn:E; [congruence |]. rewrite <- E in *.
  rewrite Hcall.
  destruct (smaller_batches_spec commits (length commits) 0 1 st' Hnp
              ltac:(lia)) as (Hcat & Hall & Hcount & Hpan).
  eexists. cbn [submitted panicked].
  split; [reflexivity |]. split; [exact Hcat |]. split; [exact Hall |].
  split; [| exact Hpan].
  destruct Hcount as [Hc | [Hc _]]; [lia |].
  rewrite E in Hc. simpl in Hc. lia.
Qed.

(** A successful call on the whole batch is the only call. *)
Lemma processCommits_ok (commits : list Req) (st st' : Store) (n : Z) :
  commits <> [] ->
  BatchCreate 0 st commits = (st', CallOk n) ->
  submitted (processCommits BatchCreate commits st) = [commits] /\
  store (processCommits BatchCreate commits st) = st'.
Proof.
  intros Hne Hcall. unfold processCommits.
  destruct commits; [congruence |]. rewrite Hcall. auto.
Qed.

End WorkerProperties.

Section UsecaseProperties.

Import Persist Usecase.
Implicit Types (db : DB) (req first : CreateCommitRequest)
         (requests rest : list CreateCommitRequest) (c : Commit).

Lemma db_first_spec db (h : string) (rid : Z) :
  match db_first db h rid with
  | Some c => c ∈ rows db /\ commit_Hash c = h /\ commit_ReleaseID c = rid
  | None => forall c, c ∈ rows db ->
                      ~ (commit_Hash c = h /\ commit_ReleaseID c = rid)
  end.
Proof.
  unfold db_first.
  destruct (filter _ (rows db)) as [|c l] eqn:E; simpl.
  - intros c Hc HP.
    assert (Hin : c ∈ filter (λ c, commit_Hash c = h ∧ commit_ReleaseID c = rid)
                         (rows db)) by (apply list_elem_of_filter; auto).
    rewrite E in Hin. apply elem_of_nil in Hin as [].
  - assert (Hin : c ∈ filter (λ c, commit_Hash c = h ∧ commit_ReleaseID c = rid)
                         (rows db)) by (rewrite E; apply elem_of_cons; auto).
    apply list_elem_of_filter in Hin as [[H1 H2] H3]. auto.
Qed.

(** The first match is still the first match after an insert at the end. *)
Lemma db_first_app db (h : string) (rid : Z) (c' : Commit) (n : Z) :
  db_first (mkDB (rows db ++ [c']) n) h rid
  = match db_first db h rid with
    | Some c => Some c
    | None => if decide (commit_Hash c' = h ∧ commit_ReleaseID c' = rid)
              then Some c' else None
    end.
Proof.
  unfold db_first. cbn [rows]. rewrite filter_app.
  destruct (filter _ (rows db)) as [|c l]; [| reflexivity].
  simpl. rewrite filter_cons, filter_nil.
  destruct (decide _); reflexivity.
Qed.

(** X7. [Create] is idempotent on (hash, release): when a call whose
    existence check worked has stored or found the commit, a second call
    with the same request (hash of at least 8 bytes, existence check
    working) returns the same response and leaves the table as it is. *)
Theorem X7_create_twice_returns_same :
  forall (f1 f2 : CreateFaults) (db db1 : DB) (req : CreateCommitRequest)
         (resp : CommitResponse) (log1 : list string),
    lookup_err f1 = false -> lookup_err f2 = false ->
    (8 <= String.length (Hash req))%nat ->
    Create f1 db req = (db1, Stored resp, log1) ->
    Create f2 db1 req
    = (db1, Stored resp, ["Commit already exists, skipping"]).
Proof.
  intros f1 f2 db db1 req resp log1 Hl1 Hl2 Hlong H1.
  assert (Hshort : (String.length (commit_Hash (toEntity req)) <? 8)%nat
                   = false) by (apply Nat.ltb_ge; exact Hlong).
  assert (Hfirst : exists c, db_first db1 (Hash req) (ReleaseID req) = Some c
                             /\ toResponse c = resp).
  { unfold Create in H1. rewrite Hl1, Hshort in H1. cbn [toEntity commit_Hash
      commit_ReleaseID] in H1.
    destruct (db_first db (Hash req) (ReleaseID req)) as [c|] eqn:E.
    - injection H1 as <- <- _. eauto.
    - destruct (insert_err f1); [discriminate |].
      destruct (tx_commit_err f1); [discriminate |].
      unfold db_create in H1. cbn in H1. injection H1 as <- <- _.
      rewrite db_first_app, E. cbn [commit_Hash commit_ReleaseID].
      rewrite decide_True by auto. eauto. }
  destruct Hfirst as (c & Hc & <-).
  unfold Create. rewrite Hl2, Hshort.
  cbn [toEntity commit_Hash commit_ReleaseID]. rewrite Hc. reflexivity.
Qed.

(** X8. One request, both entry points: without database errors, and for
    a hash of at least 8 bytes, [BatchCreate] on the one-request batch and
    [Create] leave the same table: both insert exactly when no row with
    that hash exists under the request's release. *)
Theorem X8_single_request_batch_agrees_with_create :
  forall (db : DB) (req : CreateCommitRequest),
    (8 <= String.length (Hash req))%nat ->
    out_db (BatchCreate no_faults db [req]) = fst (fst (Create create_ok db req))
    /\ (rows (out_db (BatchCreate no_faults db [req])) = rows db <->
        present_under db (ReleaseID req) req).
Proof.
  intros db req Hlong.
  assert (Hshort : (String.length (commit_Hash (toEntity req)) <? 8)%nat
                   = false) by (apply Nat.ltb_ge; exact Hlong).
  pose proof (db_first_spec db (Hash req) (ReleaseID req)) as Hspec.
  pose proof (classified_present_iff no_faults db req [] req eq_refl
                ltac:(apply elem_of_cons; auto)) as Hcls.
  unfold Create. cbn [lookup_err create_ok insert_err tx_commit_err].
  rewrite Hshort. cbn [toEntity commit_Hash commit_ReleaseID].
  destruct (db_first db (Hash req) (ReleaseID req)) as [c|] eqn:E.
  - assert (Hp : present_under db (ReleaseID req) req)
      by (exists c; tauto).
    assert (Hnew : newRequests no_faults db [req] = []).
    { apply (newRequests_nil_iff no_faults db req [] eq_refl).
      intros r Hr. apply list_elem_of_singleton in Hr. subst r. exact Hp. }
    rewrite (BatchCreate_all_present _ _ _ _ Hnew). cbn [out_db fst].
    split; [reflexivity | tauto].
  - assert (Hnp : ~ present_under db (ReleaseID req) req).
    { intros (c & Hc & Hh & Hr). apply (Hspec c Hc). auto. }
    assert (Hnew : newRequests no_faults db [req] = [req]).
    { unfold newRequests. rewrite filter_cons_True; [reflexivity |].
      destruct (is_existing _ req) eqn:Ex; [| reflexivity].
      exfalso. apply Hnp, Hcls. intros [_ Hf]%newRequests_spec. congruence. }
    rewrite (BatchCreate_committed _ _ _ _ _ _ Hnew eq_refl eq_refl).
    cbn. split; [reflexivity |]. split; [| tauto].
    intros Hrows. exfalso.
    apply (f_equal length) in Hrows. rewrite length_app in Hrows.
    simpl in Hrows. lia.
Qed.

End UsecaseProperties.

Section PersistMore.

Import Persist Usecase.
Implicit Types (db : DB) (f : Faults) (req first : CreateCommitRequest)
         (requests rest : list CreateCommitRequest) (c : Commit).

(** X9. The transactional path is all or nothing: when [CreateInBatches]
    succeeds, a call either leaves the table untouched (nothing new, or the
    commit failed and its error is returned) or stores every new request,
    in request order, and returns one response per stored row. *)
Theorem X9_transactional_path_all_or_nothing :
  forall (f : Faults) (db : DB) (first : CreateCommitRequest)
         (rest : list CreateCommitRequest),
    batch_err f = false ->
    let o := BatchCreate f db (first :: rest) in
    let new := newRequests f db (first :: rest) in
    let saved := snd (db_create_all db (map toEntity new)) in
    (new = [] -> out_db o = db /\ out_result o = Returned []) /\
    (new <> [] -> commit_err f = true ->
       out_db o = db /\ out_result o = Failed ErrCommitTx) /\
    (new <> [] -> commit_err f = false ->
       rows (out_db o) = rows db ++ saved /\
       Forall2 same_data (map toEntity new) saved /\
       out_result o = Returned (map toResponse saved)).
Proof.
  intros f db first rest Hb o new saved. unfold o, saved.
  destruct (newRequests f db (first :: rest)) as [|n0 ns] eqn:Hnew;
    fold new; subst new.
  - rewrite (BatchCreate_all_present _ _ _ _ Hnew).
    repeat split; try congruence.
  - split; [discriminate |]. split; intros _ Hc.
    + apply (BatchCreate_commit_failed _ _ _ _ _ _ Hnew Hb Hc).
    + rewrite (BatchCreate_committed _ _ _ _ _ _ Hnew Hb Hc).
      cbn [out_db out_result].
      destruct (db_create_all_spec (map toEntity (n0 :: ns)) db)
        as (Hrows & Hdata & _).
      auto.
Qed.

(** One step of the fallback loop, case by case. *)
Ltac fb_case f i request :=
  cbn [individual_inserts];
  destruct (create_err f i);
  [ destruct (String.length (commit_Hash (toEntity request)) <? 8)%nat
  | ].

(** The rows the fallback loop adds come from its requests. *)
Lemma fb_rows_added (reqs : list CreateCommitRequest) f (i : nat)
    (st : Fallback) :
  exists added,
    rows (fb_db (fb_state (individual_inserts f i reqs st)))
    = rows (fb_db st) ++ added /\
    (length added <= length reqs)%nat /\
    Forall (λ c, exists r, r ∈ reqs /\ same_data (toEntity r) c) added.
Proof.
  revert i st. induction reqs as [|request reqs IH]; intros i st.
  - exists []. simpl. rewrite app_nil_r. auto.
  - assert (Hmono : forall (added : list Commit),
              Forall (λ c, exists r, r ∈ reqs /\ same_data (toEntity r) c) added ->
              Forall (λ c, exists r, r ∈ request :: reqs
                                     /\ same_data (toEntity r) c) added).
    { intros added H. eapply Forall_impl; [exact H |].
      intros c (r & Hr & Hd).
      exists r. split; [apply elem_of_cons; auto | exact Hd]. }
    fb_case f i request.
    + exists []. cbn [fb_state fb_db]. rewrite app_nil_r.
      repeat split; [simpl; lia | constructor].
    + destruct (IH (S i) (mkFallback (fb_db st) (fb_success st)
                  (fb_errors st + 1) (fb_ops st ++ [OpCreate (toEntity request)])
                  (fb_log st ++ [WarnIndividualFailed
                     (String.substring 0 8 (commit_Hash (toEntity request))
                      +:+ "...")]))) as (added & Hrows & Hlen & Hall).
      exists added. cbn [fb_db] in Hrows.
      repeat split; [exact Hrows | simpl; lia | apply Hmono, Hall].
    + destruct (IH (S i) (mkFallback (fst (db_create (fb_db st) (toEntity request)))
                  (fb_success st + 1) (fb_errors st)
                  (fb_ops st ++ [OpCreate (toEntity request)]) (fb_log st)))
        as (added & Hrows & Hlen & Hall).
      cbn [fb_db] in Hrows. rewrite rows_db_create, <- app_assoc in Hrows.
      eexists. split; [exact Hrows |]. split; [simpl; lia |].
      constructor; [| apply Hmono, Hall].
      exists request. split; [apply elem_of_cons; auto | repeat split].
Qed.

(** X10. [BatchCreate] only appends: on every path, a panic included, the
    table after the call is the table before it followed by added rows;
    there are at most as many of them as requests classified as new, and
    each carries the hash, message and release of such a request.  No stored
    row is removed or rewritten. *)
Theorem X10_batch_create_only_appends :
  forall (f : Faults) (db : DB) (requests : list CreateCommitRequest),
    let o := BatchCreate f db requests in
    exists added,
      rows (out_db o) = rows db ++ added /\
      (length added <= length (newRequests f db requests))%nat /\
      Forall (λ c, exists r, r ∈ newRequests f db requests
                             /\ same_data (toEntity r) c) added.
Proof.
  intros f db requests o. unfold o.
  destruct requests as [|first rest].
  { exists []. simpl. rewrite app_nil_r. repeat split; [lia | constructor]. }
  destruct (newRequests f db (first :: rest)) as [|n0 ns] eqn:Hnew.
  - rewrite (BatchCreate_all_present _ _ _ _ Hnew). exists [].
    cbn [out_db]. rewrite app_nil_r. repeat split; [simpl; lia | constructor].
  - destruct (batch_err f) eqn:Hb.
    + rewrite (BatchCreate_fallback _ _ _ _ _ _ Hnew Hb). unfold fallback.
      destruct (fb_rows_added (n0 :: ns) f 0%nat
                  (mkFallback db 0 0
                     ((head_ops first rest
                       ++ [OpCreateInBatches (map toEntity (n0 :: ns)) 50])
                      ++ [OpRollback; OpBegin])
                     (head_log f db (first :: rest)
                      ++ [ErrorBatchCreate; InfoTryIndividual])))
        as (added & Hrows & Hlen & Hall).
      exists added.
      destruct (individual_inserts _ _ _ _) as [st | st];
        cbn [fb_state fb_db] in Hrows;
        [destruct (refetch_err f) |]; cbn [out_db]; auto.
    + destruct (commit_err f) eqn:Hc.
      * destruct (BatchCreate_commit_failed _ _ _ _ _ _ Hnew Hb Hc) as [-> _].
        exists []. rewrite app_nil_r. repeat split; [simpl; lia | constructor].
      * rewrite (BatchCreate_committed _ _ _ _ _ _ Hnew Hb Hc). cbn [out_db].
        destruct (db_create_all_spec (map toEntity (n0 :: ns)) db)
          as (Hrows & Hdata & _).
        exists (snd (db_create_all db (map toEntity (n0 :: ns)))).
        split; [exact Hrows |].
        pose proof (Forall2_length _ _ _ Hdata) as Hl.
        rewrite length_map in Hl. split; [lia |].
        clear Hrows Hl. revert Hdata.
        generalize (snd (db_create_all db (map toEntity (n0 :: ns)))).
        generalize (n0 :: ns). clear.
        intros l saved. revert saved.
        induction l as [|r l IH]; intros saved H; inversion H; subst;
          constructor.
        -- exists r. split; [apply elem_of_cons; auto | assumption].
        -- eapply Forall_impl; [apply IH; eassumption |].
           intros c (r' & Hr' & Hd). exists r'.
           split; [apply elem_of_cons; auto | exact Hd].
Qed.

(** X11. What the fallback returns: when [CreateInBatches] fails and the
    call returns without error, its result is what [GetCommitsByReleaseID]
    yields for the release of the first new request on the table the call
    leaves: every stored commit of that release.  So every row of that
    release stored before the call is in the result, part of the batch or
    not. *)
Theorem X11_fallback_returns_whole_release :
  forall (f : Faults) (db : DB) (first firstNew : CreateCommitRequest)
         (rest others : list CreateCommitRequest)
         (resp : list CommitResponse),
    batch_err f = true ->
    newRequests f db (first :: rest) = firstNew :: others ->
    out_result (BatchCreate f db (first :: rest)) = Returned resp ->
    GetCommitsByReleaseID false (out_db (BatchCreate f db (first :: rest)))
                          (ReleaseID firstNew) = Some resp /\
    (forall c, c ∈ rows db -> commit_ReleaseID c = ReleaseID firstNew ->
               toResponse c ∈ resp).
Proof.
  intros f db first firstNew rest others resp Hb Hnew Hres.
  rewrite (BatchCreate_fallback _ _ _ _ _ _ Hnew Hb) in *.
  unfold fallback in *.
  destruct (individual_inserts _ _ _ _) as [st | st] eqn:Hloop;
    [| discriminate].
  pose proof (fb_done_rows _ _ _ _ _ Hloop) as [Hkeep _].
  cbn [fb_db] in Hkeep.
  destruct (refetch_err f); [discriminate |].
  cbn [out_db out_result] in *. injection Hres as <-.
  split; [reflexivity |].
  intros c Hc Hrel. apply elem_of_map. exists c. split; [reflexivity |].
  unfold db_find_by_release. apply list_elem_of_filter. auto.
Qed.

End PersistMore.

Section PersistLookup.

Import Persist Usecase.
Implicit Types (db : DB) (f : Faults) (req first : CreateCommitRequest)
         (requests rest : list CreateCommitRequest) (c : Commit).

Lemma filter_all {A : Type} (P : A -> Prop) `{!∀ x, Decision (P x)}
    (l : list A) :
  (forall x, x ∈ l -> P x) -> filter P l = l.
Proof.
  induction l as [|a l IH]; intros Hall; [reflexivity |].
  rewrite filter_cons_True by (apply Hall, elem_of_cons; auto).
  f_equal. apply IH. intros x Hx. apply Hall, elem_of_cons. auto.
Qed.

Lemma filter_none {A : Type} (P : A -> Prop) `{!∀ x, Decision (P x)}
    (l : list A) :
  (forall x, x ∈ l -> ~ P x) -> filter P l = [].
Proof.
  induction l as [|a l IH]; intros Hall; [reflexivity |].
  rewrite filter_cons_False by (apply Hall, elem_of_cons; auto).
  apply IH. intros x Hx. apply Hall, elem_of_cons. auto.
Qed.

(** The stored rows of a one-release list of requests have that release. *)
Lemma saved_release (l : list CreateCommitRequest) (saved : list Commit)
    (rid : Z) :
  Forall2 same_data (map toEntity l) saved ->
  (forall r, r ∈ l -> ReleaseID r = rid) ->
  forall c, c ∈ saved -> commit_ReleaseID c = rid.
Proof.
  revert saved. induction l as [|r l IH]; intros saved H Hrel c Hc;
    inversion H; subst.
  - apply elem_of_nil in Hc as [].
  - apply elem_of_cons in Hc as [-> | Hc].
    + match goal with Hd : same_data _ _ |- _ =>
        destruct Hd as (_ & _ & ->) end.
      apply Hrel, elem_of_cons. auto.
    + eapply IH; [eassumption | | exact Hc].
      intros r' Hr'. apply Hrel, elem_of_cons. auto.
Qed.

(** X12. Insert, then look up: when the transactional path of
    [BatchCreate] succeeds on a batch of one release, [GetCommitsByReleaseID]
    for that release afterwards returns what it returned before followed by
    the responses of the call, and for every other release it returns what it
    returned before. *)
Theorem X12_lookup_after_batch_create :
  forall (f : Faults) (db : DB) (first : CreateCommitRequest)
         (rest : list CreateCommitRequest),
    batch_err f = false -> commit_err f = false ->
    (forall r, r ∈ first :: rest -> ReleaseID r = ReleaseID first) ->
    let o := BatchCreate f db (first :: rest) in
    exists resp,
      out_result o = Returned resp /\
      GetCommitsByReleaseID false (out_db o) (ReleaseID first)
      = Some (map toResponse (db_find_by_release db (ReleaseID first)) ++ resp)
      /\
      (forall rid, rid <> ReleaseID first ->
         GetCommitsByReleaseID false (out_db o) rid
         = GetCommitsByReleaseID false db rid).
Proof.
  intros f db first rest Hb Hc Hrel o. unfold o.
  destruct (newRequests f db (first :: rest)) as [|n0 ns] eqn:Hnew.
  - rewrite (BatchCreate_all_present _ _ _ _ Hnew). exists [].
    cbn [out_result out_db]. rewrite app_nil_r.
    split; [reflexivity | split; [reflexivity | intros; reflexivity]].
  - rewrite (BatchCreate_committed _ _ _ _ _ _ Hnew Hb Hc).
    cbn [out_result out_db].
    destruct (db_create_all_spec (map toEntity (n0 :: ns)) db)
      as (Hrows & Hdata & _).
    set (saved := snd (db_create_all db (map toEntity (n0 :: ns)))) in *.
    assert (Hsaved : forall c, c ∈ saved ->
                               commit_ReleaseID c = ReleaseID first).
    { apply (saved_release (n0 :: ns) saved _ Hdata).
      intros r Hr. apply Hrel.
      rewrite <- Hnew in Hr. apply newRequests_spec in Hr as [Hr _]. exact Hr. }
    exists (map toResponse saved). split; [reflexivity |].
    unfold GetCommitsByReleaseID, db_find_by_release. rewrite Hrows.
    split.
    + rewrite filter_app, (filter_all _ saved Hsaved), map_app. reflexivity.
    + intros rid Hrid. rewrite filter_app, (filter_none _ saved), app_nil_r;
        [reflexivity |].
      intros c Hcin Heq. apply Hrid. rewrite <- Heq. apply Hsaved, Hcin.
Qed.

(** X13. No duplicate check inside a batch: when the existence query
    works and no request's hash is stored under the first request's
    release, every request of the batch is classified as new, a request
    that occurs several times as often as it occurs; with insert and commit
    succeeding the table grows by one row per request. *)
Theorem X13_no_dedup_within_batch :
  forall (f : Faults) (db : DB) (first : CreateCommitRequest)
         (rest : list CreateCommitRequest),
    find_err f = false ->
    (forall r, r ∈ first :: rest -> ~ present_under db (ReleaseID first) r) ->
    newRequests f db (first :: rest) = first :: rest /\
    (batch_err f = false -> commit_err f = false ->
     length (rows (out_db (BatchCreate f db (first :: rest))))
     = (length (rows db) + length (first :: rest))%nat).
Proof.
  intros f db first rest Hf Hnone.
  assert (Hnew : newRequests f db (first :: rest) = first :: rest).
  { unfold newRequests. apply filter_all. intros r Hr.
    destruct (is_existing _ r) eqn:E; [| reflexivity].
    exfalso. apply (Hnone r Hr).
    apply (classified_present_iff f db first rest r Hf Hr).
    intros [_ Hfalse]%newRequests_spec. congruence. }
  split; [exact Hnew |]. intros Hb Hc.
  rewrite (BatchCreate_committed _ _ _ _ _ _ Hnew Hb Hc). cbn [out_db].
  destruct (db_create_all_spec (map toEntity (first :: rest)) db)
    as (Hrows & Hdata & _).
  rewrite Hrows, length_app. apply Forall2_length in Hdata.
  rewrite length_map in Hdata. lia.
Qed.

(** X14. The batch insert without duplicate check is all or nothing and
    never skips a request: an error of the insert or of the commit leaves the
    table as it was; otherwise every request is stored, in order, with one
    response each, whether or not it was stored before: two successful calls
    with the same batch store every request twice. *)
Theorem X14_plain_batch_create :
  forall (db : DB) (requests : list CreateCommitRequest)
         (batch_err commit_err : bool),
    let r := BatchCreateAll batch_err commit_err db requests in
    (batch_err || commit_err = true -> fst r = db) /\
    (batch_err || commit_err = false ->
     exists saved,
       rows (fst r) = rows db ++ saved /\
       Forall2 same_data (map toEntity requests) saved /\
       snd r = inl (map toResponse saved)) /\
    (exists s1 s2,
       rows (fst (BatchCreateAll false false
                    (fst (BatchCreateAll false false db requests)) requests))
       = rows db ++ s1 ++ s2 /\
       Forall2 same_data (map toEntity requests) s1 /\
       Forall2 same_data (map toEntity requests) s2).
Proof.
  intros db requests be ce r.
  assert (Hok : forall db0,
             exists saved,
               rows (fst (BatchCreateAll false false db0 requests))
               = rows db0 ++ saved /\
               Forall2 same_data (map toEntity requests) saved /\
               snd (BatchCreateAll false false db0 requests)
               = inl (map toResponse saved)).
  { intros db0. unfold BatchCreateAll. destruct requests as [|r0 rs].
    - exists []. simpl. rewrite app_nil_r. repeat split. constructor.
    - destruct (db_create_all_spec (map toEntity (r0 :: rs)) db0)
        as (Hrows & Hdata & _).
      destruct (db_create_all db0 (map toEntity (r0 :: rs))) as [db' saved].
      exists saved. auto. }
  split; [| split].
  - unfold r, BatchCreateAll. destruct requests; [reflexivity |].
    destruct be; [reflexivity |]. destruct ce; [reflexivity | discriminate].
  - intros H. apply orb_false_iff in H as [-> ->]. apply Hok.
  - destruct (Hok db) as (s1 & H1 & Hd1 & _).
    destruct (Hok (fst (BatchCreateAll false false db requests)))
      as (s2 & H2 & Hd2 & _).
    exists s1, s2. rewrite H2, H1, <- app_assoc. auto.
Qed.

End PersistLookup.

Section ConfigProperties.

Import Config.




End ConfigProperties.

Section ServiceProperties.

Import Coordinator Service.
Context {Data : Type}.
Variable marshal : option Data -> string.
Implicit Types (c : CrawlingCoordinator Data) (env : Replies Data).

Lemma wrap64_one : wrap64 (0 + 1) = 1.
Proof. reflexivity. Qed.

Lemma step1_never_stable c env :
  never_stable c ->
  never_stable (fst (fst (crawlStep1 c env))) /\
  (snd (fst (crawlStep1 c env)) = true ->
   releaseNoChangeCount (fst (fst (crawlStep1 c env))) = 0).
Proof.
  intros (H1 & H2 & H3 & H4 & H5 & H6 & H7). unfold crawlStep1.
  destruct (is_nil (repoCache c)); [destruct (repoReply env) |];
    cbn [fst snd]; unfold never_stable; cbn; 
    repeat split; auto; try discriminate.
Qed.

Lemma step2_never_stable c (repoChanged : bool) env :
  never_stable c ->
  (repoChanged = true -> releaseNoChangeCount c = 0) ->
  never_stable (fst (fst (crawlStep2 marshal c repoChanged env))) /\
  (snd (fst (crawlStep2 marshal c repoChanged env)) = true ->
   commitNoChangeCount (fst (fst (crawlStep2 marshal c repoChanged env))) = 0).
Proof.
  intros (H1 & H2 & H3 & H4 & H5 & H6 & H7) Hzero.
  assert (Hinv : never_stable c) by (repeat split; assumption).
  unfold crawlStep2, shouldCrawlReleases. rewrite H3.
  destruct repoChanged; cbn [orb andb negb].
  - destruct (releaseReply env) as [|d];
      [cbn [fst snd]; split; [exact Hinv | discriminate] |].
    destruct (hasDataChanged marshal (releaseCache c) d).
    + cbn [fst snd]. unfold never_stable. cbn. repeat split; auto.
    + cbv zeta. cbn [fst snd]. rewrite (Hzero eq_refl), wrap64_one.
      destruct (Z.leb_spec (stabilityThreshold c) 1); [lia |].
      unfold never_stable. cbn. repeat split; auto; discriminate.
  - destruct (releaseCache c) as [prev|] eqn:Ecache; cbn [is_nil negb].
    + cbn [fst snd]. split; [exact Hinv | discriminate].
    + destruct (releaseReply env) as [|d];
        [cbn [fst snd]; split; [exact Hinv | discriminate] |].
      cbn [hasDataChanged fst snd]. unfold never_stable. cbn.
      repeat split; auto.
Qed.

Lemma step3_never_stable c (releaseChanged : bool) env :
  never_stable c ->
  (releaseChanged = true -> commitNoChangeCount c = 0) ->
  never_stable (fst (crawlStep3 marshal c releaseChanged env)).
Proof.
  intros (H1 & H2 & H3 & H4 & H5 & H6 & H7) Hzero.
  assert (Hinv : never_stable c) by (repeat split; assumption).
  unfold crawlStep3, shouldCrawlCommits. rewrite H4.
  destruct releaseChanged; cbn [orb andb negb].
  - destruct (commitReply env) as [|d]; [exact Hinv |].
    destruct (hasDataChanged marshal (commitCache c) d).
    + cbn [fst]. unfold never_stable. cbn. repeat split; auto.
    + cbv zeta. cbn [fst]. rewrite (Hzero eq_refl), wrap64_one.
      destruct (Z.leb_spec (stabilityThreshold c) 1); [lia |].
      unfold never_stable. cbn. repeat split; auto.
  - destruct (commitCache c) as [prev|] eqn:Ecache; cbn [is_nil negb].
    + exact Hinv.
    + destruct (commitReply env) as [|d]; [exact Hinv |].
      cbn [hasDataChanged fst]. unfold never_stable. cbn.
      repeat split; auto.
Qed.

Lemma CrawlAll_state c env :
  fst (CrawlAll marshal c env)
  = fst (crawlStep3 marshal
           (fst (fst (crawlStep2 marshal (fst (fst (crawlStep1 c env)))
                                 (snd (fst (crawlStep1 c env))) env)))
           (snd (fst (crawlStep2 marshal (fst (fst (crawlStep1 c env)))
                                 (snd (fst (crawlStep1 c env))) env)))
           env).
Proof.
  unfold CrawlAll.
  destruct (crawlStep1 c env) as [[c1 repoChanged] t1]. cbn [fst snd].
  destruct (crawlStep2 marshal c1 repoChanged env) as [[c2 relChanged] t2].
  cbn [fst snd]. destruct (crawlStep3 marshal c2 relChanged env). reflexivity.
Qed.

Lemma CrawlAll_never_stable c env :
  never_stable c -> never_stable (fst (CrawlAll marshal c env)).
Proof.
  intros H. rewrite CrawlAll_state.
  destruct (step1_never_stable c env H) as [H1 Hz1].
  destruct (step2_never_stable _ _ env H1 Hz1) as [H2 Hz2].
  apply step3_never_stable; assumption.
Qed.

Lemma apply_coord_never_stable c (op : CoordOp Data) :
  match op with DoSetStabilityThreshold t => 2 <= t | _ => True end ->
  never_stable c -> never_stable (apply_coord marshal c op).
Proof.
  intros Hop H. destruct op as [env | | t]; cbn [apply_coord].
  - apply CrawlAll_never_stable, H.
  - destruct H as (H1 & H2 & H3 & H4 & H5 & H6 & H7).
    unfold never_stable, ForceReactivateAll. cbn. repeat split; auto.
  - destruct H as (H1 & H2 & H3 & H4 & H5 & H6 & H7).
    unfold never_stable, SetStabilityThreshold. cbn.
    destruct (Z.ltb_spec t 1); repeat split; auto; lia.
Qed.

(** X16. With a stability threshold of 2 or more (the default is 3) no
    stage is ever paused: after any sequence of cycles, reactivations and
    threshold settings on a new coordinator, with whatever the endpoints
    answer, the release and commit pause flags are unset and both no-change
    streaks are 0 or 1.  A streak grows only in a cycle that has just reset
    it. *)
Theorem X16_stages_are_never_paused :
  forall (ops : list (CoordOp Data)),
    thresholds_at_least 2 ops ->
    let c := run_coord marshal NewCrawlingCoordinator ops in
    releasePaused c = false /\ commitPaused c = false /\
    0 <= releaseNoChangeCount c <= 1 /\ 0 <= commitNoChangeCount c <= 1.
Proof.
  intros ops Hops c.
  assert (Hrun : forall (l : list (CoordOp Data)) c0,
             thresholds_at_least 2 l -> never_stable c0 ->
             never_stable (run_coord marshal c0 l)).
  { induction l as [|op l IH]; intros c0 Hl H0; [exact H0 |].
    inversion Hl; subst. unfold run_coord in *. simpl.
    apply IH; [assumption |]. apply apply_coord_never_stable; assumption. }
  assert (H : never_stable c).
  { apply Hrun; [exact Hops |]. unfold never_stable. cbn.
    repeat split; auto; lia. }
  destruct H as (H1 & H2 & H3 & H4 & _). repeat split; auto; lia.
Qed.

End ServiceProperties.

Section ServiceCycles.

Import Coordinator Service.
Context {Data : Type}.
Variable marshal : option Data -> string.
Implicit Types (c : CrawlingCoordinator Data) (env : Replies Data).

Lemma cached_cycle c env :
  all_cached c ->
  fst (CrawlAll marshal c env) = c /\
  stages_called (snd (CrawlAll marshal c env)) = [].
Proof.
  intros (H1 & H2 & H3).
  unfold CrawlAll, crawlStep1, crawlStep2, crawlStep3,
    shouldCrawlReleases, shouldCrawlCommits.
  rewrite H1. cbn [orb]. rewrite H2. cbn [andb negb fst snd].
  rewrite H3. cbn [orb andb negb]. split; reflexivity.
Qed.

(** X17. The steady state: once all three caches hold a payload, a cycle
    calls no stage and leaves the coordinator exactly as it is, whatever the
    endpoints would answer; only [ForceReactivateAll] gets it out of there. *)
Theorem X17_cached_coordinator_calls_nothing :
  forall (c : CrawlingCoordinator Data) (env : Replies Data),
    all_cached c ->
    fst (CrawlAll marshal c env) = c /\
    stages_called (snd (CrawlAll marshal c env)) = [] /\
    stages_called (snd (CrawlAll marshal (ForceReactivateAll c) env))
    <> [].
Proof.
  intros c env Hc. destruct (cached_cycle c env Hc) as [E1 E2].
  split; [exact E1 |]. split; [exact E2 |].
  unfold CrawlAll, crawlStep1, ForceReactivateAll. cbn [repoCache is_nil].
  destruct (repoReply env);
    match goal with
    | |- context [crawlStep2 ?m ?c1 ?b ?e] =>
        destruct (crawlStep2 m c1 b e) as [[c2 rc] t2]
    end;
    match goal with
    | |- context [crawlStep3 ?m ?c1 ?b ?e] =>
        destruct (crawlStep3 m c1 b e) as [c3 t3]
    end; cbn; discriminate.
Qed.

Lemma periodic_steady (wakeups : list (Wakeup Data)) c :
  all_cached c ->
  final (StartPeriodicCrawling marshal c wakeups) = c /\
  Forall (λ t, stages_called t = [])
         (cycles (StartPeriodicCrawling marshal c wakeups)).
Proof.
  intros Hc. induction wakeups as [|w ws IH]; [split; [reflexivity | constructor] |].
  destruct w as [env |]; cbn [StartPeriodicCrawling];
    [| split; [reflexivity | constructor]].
  destruct (cached_cycle c env Hc) as (E1 & E2).
  destruct (CrawlAll marshal c env) as [c1 t]. cbn [fst snd] in E1, E2.
  subst c1. destruct IH as [IH1 IH2]. cbn [final cycles].
  split; [exact IH1 | constructor; assumption].
Qed.

(** X18. Start-up, then silence: when the three endpoints answer the
    initial crawl of [startCircuitBreakerCoordinator] with payloads other
    than null, that crawl calls the three stages in order and caches the
    payloads, and no cycle of the periodic loop ever calls a stage
    afterwards, whatever the ticks bring. *)
Theorem X18_after_start_up_no_cycle_calls_a_stage :
  forall (d1 d2 d3 : Data) (wakeups : list (Wakeup Data)),
    let env0 := mkReplies (ReplyOk (Some d1)) (ReplyOk (Some d2))
                          (ReplyOk (Some d3)) in
    let r := startCircuitBreakerCoordinator marshal env0 wakeups in
    exists t0 later,
      cycles r = t0 :: later /\
      stages_called t0 = [Repo; Release; Commit] /\
      Forall (λ t, stages_called t = []) later /\
      repoCache (final r) = Some d1 /\ releaseCache (final r) = Some d2 /\
      commitCache (final r) = Some d3.
Proof.
  intros d1 d2 d3 wakeups env0 r. unfold r, startCircuitBreakerCoordinator.
  set (c1 := mkCoordinator (Some d1) (Some d2) (Some d3) 0 0 0
                           false false false 3).
  assert (E : exists t0, CrawlAll marshal NewCrawlingCoordinator env0 = (c1, t0)
                         /\ stages_called t0 = [Repo; Release; Commit]).
  { eexists. split; reflexivity. }
  destruct E as (t0 & -> & Ht0).
  destruct (periodic_steady wakeups c1) as [Hfin Hall];
    [repeat split |].
  eexists _, _. cbn [cycles final]. split; [reflexivity |].
  split; [exact Ht0 |]. split; [exact Hall |]. rewrite Hfin. auto.
Qed.

Lemma stages_called_app (t t' : list Event) :
  stages_called (t ++ t') = stages_called t ++ stages_called t'.
Proof. unfold stages_called. apply omap_app. Qed.

Lemma step1_stages c env :
  stages_called (snd (crawlStep1 c env))
  = if is_nil (repoCache c) then [Repo] else [].
Proof.
  unfold crawlStep1. destruct (is_nil (repoCache c)), (repoReply env);
    reflexivity.
Qed.

Lemma step2_stages c (repoChanged : bool) env :
  stages_called (snd (crawlStep2 marshal c repoChanged env))
  = if shouldCrawlReleases c repoChanged then [Release] else [].
Proof.
  unfold crawlStep2. destruct (shouldCrawlReleases c repoChanged); cbn [negb].
  - destruct (releaseReply env) as [|d]; [reflexivity |].
    destruct (hasDataChanged marshal (releaseCache c) d); [reflexivity |].
    cbv zeta. cbn [snd]. rewrite stages_called_app.
    destruct (stabilityThreshold c <=? _); reflexivity.
  - reflexivity.
Qed.

Lemma step3_stages c (releaseChanged : bool) env :
  stages_called (snd (crawlStep3 marshal c releaseChanged env))
  = if shouldCrawlCommits c releaseChanged then [Commit] else [].
Proof.
  unfold crawlStep3. destruct (shouldCrawlCommits c releaseChanged); cbn [negb].
  - destruct (commitReply env) as [|d]; [reflexivity |].
    destruct (hasDataChanged marshal (commitCache c) d); [reflexivity |].
    cbv zeta. cbn [snd]. rewrite stages_called_app.
    destruct (stabilityThreshold c <=? _); reflexivity.
  - reflexivity.
Qed.

Lemma CrawlAll_stages c env :
  stages_called (snd (CrawlAll marshal c env))
  = stages_called (snd (crawlStep1 c env))
    ++ stages_called
         (snd (crawlStep2 marshal (fst (fst (crawlStep1 c env)))
                          (snd (fst (crawlStep1 c env))) env))
    ++ stages_called
         (snd (crawlStep3 marshal
                 (fst (fst (crawlStep2 marshal (fst (fst (crawlStep1 c env)))
                                       (snd (fst (crawlStep1 c env))) env)))
                 (snd (fst (crawlStep2 marshal (fst (fst (crawlStep1 c env)))
                                       (snd (fst (crawlStep1 c env))) env)))
                 env)).
Proof.
  unfold CrawlAll.
  destruct (crawlStep1 c env) as [[c1 repoChanged] t1]. cbn [fst snd].
  destruct (crawlStep2 marshal c1 repoChanged env) as [[c2 relChanged] t2].
  cbn [fst snd]. destruct (crawlStep3 marshal c2 relChanged env) as [c3 t3].
  cbn [fst snd]. rewrite !stages_called_app. cbn [stages_called omap].
  rewrite app_nil_r. reflexivity.
Qed.

(** X19. The stages a cycle calls: at most one call per stage, in the
    order repository, release, commit.  The repository stage is called
    exactly when its cache is empty.  The release stage is called exactly
    when the repository stage was called and answered (which lifts a pause
    of the release stage), or the release cache is empty and the release
    stage is not paused.  In a cycle in which the release endpoint answers
    with an error (if it is called at all), the commit stage is called
    exactly when its cache is empty and it is not paused. *)
Theorem X19_stages_in_order :
  forall (c : CrawlingCoordinator Data) (env : Replies Data),
    let called := stages_called (snd (CrawlAll marshal c env)) in
    sublist called [Repo; Release; Commit] /\
    (Repo ∈ called <-> repoCache c = None) /\
    (Release ∈ called <->
       (repoCache c = None /\ repoReply env <> ReplyErr)
       \/ (releaseCache c = None /\ releasePaused c = false)) /\
    (releaseReply env = ReplyErr ->
     (Commit ∈ called <-> commitCache c = None /\ commitPaused c = false)).
Proof.
  intros c env called. unfold called.
  rewrite CrawlAll_stages, step1_stages, step2_stages, step3_stages.
  unfold crawlStep2, crawlStep1, shouldCrawlReleases, shouldCrawlCommits.
  destruct c as [rc lc cc n1 n2 n3 p1 p2 p3 th].
  destruct env as [r1 r2 r3]. cbn [repoCache releaseCache commitCache
    releasePaused commitPaused repoReply releaseReply commitReply].
  assert (Hsub : forall a b d : bool,
             sublist ((if a then [Repo] else [])
                        ++ (if b then [Release] else [])
                        ++ (if d then [Commit] else []))
                     [Repo; Release; Commit]).
  { intros [|] [|] [|]; cbn; repeat constructor. }
  split; [apply Hsub |].
  split; [| split].
  - destruct rc; cbn [is_nil]; rewrite !elem_of_app.
    + split; [| discriminate]. intros [H | [H | H]].
      * inversion H.
      * destruct (_ && _) in H; apply list_elem_of_In in H; cbn in H;
          intuition discriminate.
      * destruct (_ && _) in H; apply list_elem_of_In in H; cbn in H;
          intuition discriminate.
    + split; [reflexivity |]. intros _. left. apply elem_of_cons. auto.
  - destruct rc, r1, lc, p2; cbn; rewrite ?elem_of_app;
      repeat match goal with
             | |- context [if ?b then _ else _] => destruct b; cbn
             | |- context [match ?r with ReplyErr => _ | ReplyOk _ => _ end] =>
                 destruct r; cbn
             end; rewrite ?elem_of_cons, ?elem_of_nil;
      intuition (discriminate || congruence).
  - intros ->.
    destruct rc, r1, lc, p2, cc, p3; cbn; rewrite ?elem_of_app;
      rewrite ?elem_of_cons, ?elem_of_nil;
      intuition (discriminate || congruence).
Qed.

(** X20. A failed call changes nothing: a stage whose call returns an error
    keeps its cache, and a cycle in which every call fails leaves the whole
    coordinator as it was. *)
Theorem X20_failed_calls_leave_caches :
  forall (c : CrawlingCoordinator Data) (env : Replies Data),
    let c' := fst (CrawlAll marshal c env) in
    (repoReply env = ReplyErr -> repoCache c' = repoCache c) /\
    (releaseReply env = ReplyErr -> releaseCache c' = releaseCache c) /\
    (commitReply env = ReplyErr -> commitCache c' = commitCache c) /\
    (repoReply env = ReplyErr -> releaseReply env = ReplyErr ->
     commitReply env = ReplyErr -> c' = c).
Proof.
  intros c env c'. unfold c'. rewrite CrawlAll_state.
  unfold crawlStep1, crawlStep2, crawlStep3.
  repeat split; intros;
    repeat match goal with H : _ = ReplyErr |- _ => rewrite H; clear H end;
    repeat match goal with
           | |- context [if ?b then _ else _] => destruct b; cbn
           | |- context [match ?r with ReplyErr => _ | ReplyOk _ => _ end] =>
               destruct r; cbn
           end; reflexivity.
Qed.

End ServiceCycles.

Section BreakerMore.

Import Breaker.

(** X21. When the breaker's settings trip it: with at most as many failures
    as requests, [ReadyToTrip] holds exactly when there are at least 3
    requests in the window and at least three fifths of them failed.  So it
    never trips on fewer than 2 failures, and 3 or more requests that all
    failed always trip it. *)
Theorem X21_trip_threshold :
  forall (c : Counts),
    0 <= TotalFailures c <= Requests c ->
    (ReadyToTrip c = true
     <-> 3 <= Requests c /\ 3 * Requests c <= 5 * TotalFailures c) /\
    (ReadyToTrip c = true -> 2 <= TotalFailures c) /\
    (3 <= Requests c -> TotalFailures c = Requests c -> ReadyToTrip c = true).
Proof.
  intros c [Hf Hle].
  pose proof (ReadyToTrip_spec c Hf) as Hspec.
  split; [| split].
  - rewrite Hspec. lia.
  - intros H. apply Hspec in H. lia.
  - intros H3 Hall. apply Hspec. lia.
Qed.

End BreakerMore.

(** ** The further properties at concrete inputs *)


(** X3 after three enqueues on a queue of capacity 2. *)
Lemma X3_enqueued_minus_dequeued_is_length_witness :
  Queue.EnqueueCount (Queue.metrics Queue.two_of_three)
  - Queue.DequeueCount (Queue.metrics Queue.two_of_three)
  = len (Queue.items Queue.two_of_three).
Proof.
  refine (proj1 (X3_enqueued_minus_dequeued_is_length 2
            [Queue.OpEnqueue "a"; Queue.OpEnqueue "b"; Queue.OpEnqueue "c"] _)).
  vm_compute. reflexivity.
Defined.

(** X5 on the queue of two items: both are handed out and finished. *)
Lemma X5_processing_restored_witness :
  Queue.processing (Queue.dequeued Queue.two_of_three 2) = 2 /\
  Queue.processing
    (Queue.finishBatch (Queue.dequeued Queue.two_of_three 2) 2) = 0.
Proof.
  destruct (X5_processing_restored Queue.two_of_three
              (Queue.dequeued Queue.two_of_three 2) false 5 ["a"; "b"] eq_refl)
    as (H1 & H2 & _).
  - vm_compute. split; [discriminate | reflexivity].
  - split; [exact H1 | exact H2].
Defined.

(** X6 on twelve commits, every call failing: batches of 10 and 2. *)
Lemma X6_retry_in_batches_of_ten_witness :
  exists small,
    Worker.submitted
      (Worker.processCommits (λ _ (s : unit) (_ : list nat), (s, Worker.CallErr))
                             (seq 0 12) tt)
    = seq 0 12 :: small /\
    concat small = seq 0 12.
Proof.
  destruct (X6_retry_in_batches_of_ten
              (λ _ (s : unit) (_ : list nat), (s, Worker.CallErr))
              (seq 0 12) tt tt) as (small & H1 & H2 & _).
  - intros k st batch. discriminate.
  - discriminate.
  - reflexivity.
  - exists small. split; [exact H1 | exact H2].
Defined.

(** X7 on the empty table: the second [Create] finds the stored row. *)
Lemma X7_create_twice_returns_same_witness :
  Usecase.Create Usecase.create_ok
    (Persist.mkDB [Persist.mkCommit 1 "aaaaaaaaaaaa" "first" 1] 2)
    Persist.req_a1
  = (Persist.mkDB [Persist.mkCommit 1 "aaaaaaaaaaaa" "first" 1] 2,
     Usecase.Stored (Persist.mkResponse 1 "aaaaaaaaaaaa" "first" 1),
     ["Commit already exists, skipping"]).
Proof.
  apply (X7_create_twice_returns_same Usecase.create_ok Usecase.create_ok
           Persist.empty_db _ Persist.req_a1 _ []).
  - reflexivity.
  - reflexivity.
  - vm_compute. lia.
  - reflexivity.
Defined.

(** X8 on the empty table. *)
Lemma X8_single_request_batch_agrees_with_create_witness :
  Persist.out_db (Persist.BatchCreate Persist.no_faults Persist.empty_db
                    [Persist.req_a1])
  = fst (fst (Usecase.Create Usecase.create_ok Persist.empty_db Persist.req_a1)).
Proof.
  refine (proj1 (X8_single_request_batch_agrees_with_create Persist.empty_db
                   Persist.req_a1 _)).
  vm_compute. lia.
Defined.

(** X9 on the empty table, nothing failing: the request is stored. *)
Lemma X9_transactional_path_all_or_nothing_witness :
  Persist.rows (Persist.out_db (Persist.BatchCreate Persist.no_faults
                                  Persist.empty_db [Persist.req_a1]))
  = [Persist.mkCommit 1 "aaaaaaaaaaaa" "first" 1].
Proof.
  destruct (X9_transactional_path_all_or_nothing Persist.no_faults
              Persist.empty_db Persist.req_a1 [] eq_refl) as (_ & _ & H).
  destruct H as (Hrows & _); [discriminate | reflexivity |].
  exact Hrows.
Defined.

(** X11 on a table holding another commit of release 2: the fallback's
    result holds it as well. *)
Lemma X11_fallback_returns_whole_release_witness :
  Persist.toResponse (Persist.mkCommit 1 "bbbbbbbbbbbb" "second" 2)
  ∈ [Persist.mkResponse 1 "bbbbbbbbbbbb" "second" 2;
     Persist.mkResponse 2 "cccccccccccc" "third" 2].
Proof.
  destruct (X11_fallback_returns_whole_release Persist.batch_fails
              Persist.release2_db Persist.req_c2 Persist.req_c2 [] []
              [Persist.mkResponse 1 "bbbbbbbbbbbb" "second" 2;
               Persist.mkResponse 2 "cccccccccccc" "third" 2]
              eq_refl eq_refl eq_refl) as [_ H].
  apply H; [apply list_elem_of_singleton |]; reflexivity.
Defined.

(** X12 on the same table, nothing failing. *)
Lemma X12_lookup_after_batch_create_witness :
  exists resp,
    Persist.out_result (Persist.BatchCreate Persist.no_faults
                          Persist.release2_db [Persist.req_c2])
    = Persist.Returned resp /\
    Usecase.GetCommitsByReleaseID false
      (Persist.out_db (Persist.BatchCreate Persist.no_faults
                         Persist.release2_db [Persist.req_c2])) 2
    = Some (Persist.mkResponse 1 "bbbbbbbbbbbb" "second" 2 :: resp).
Proof.
  destruct (X12_lookup_after_batch_create Persist.no_faults
              Persist.release2_db Persist.req_c2 [] eq_refl eq_refl)
    as (resp & H1 & H2 & _).
  - intros r Hr. apply list_elem_of_singleton in Hr. subst r. reflexivity.
  - exists resp. split; [exact H1 | exact H2].
Defined.

(** X13 on the empty table: the same request twice is stored twice. *)
Lemma X13_no_dedup_within_batch_witness :
  Persist.newRequests Persist.no_faults Persist.empty_db
    [Persist.req_a1; Persist.req_a1]
  = [Persist.req_a1; Persist.req_a1] /\
  length (Persist.rows
            (Persist.out_db (Persist.BatchCreate Persist.no_faults
                               Persist.empty_db
                               [Persist.req_a1; Persist.req_a1])))
  = 2%nat.
Proof.
  destruct (X13_no_dedup_within_batch Persist.no_faults Persist.empty_db
              Persist.req_a1 [Persist.req_a1] eq_refl) as [H1 H2].
  - intros r _ (c & Hc & _). apply elem_of_nil in Hc. exact Hc.
  - split; [exact H1 | exact (H2 eq_refl eq_refl)].
Defined.

(** X16 on a run that sets the threshold to 2 between two cycles. *)
Lemma X16_stages_are_never_paused_witness :
  Coordinator.releasePaused
    (Service.run_coord Coordinator.marshal_text
       Coordinator.NewCrawlingCoordinator
       [Service.DoCrawlAll Coordinator.same_answers;
        Service.DoSetStabilityThreshold 2;
        Service.DoCrawlAll Coordinator.same_answers])
  = false.
Proof.
  refine (proj1 (X16_stages_are_never_paused Coordinator.marshal_text
                   [Service.DoCrawlAll Coordinator.same_answers;
                    Service.DoSetStabilityThreshold 2;
                    Service.DoCrawlAll Coordinator.same_answers] _)).
  repeat constructor. vm_compute. discriminate.
Defined.

(** X17 on a coordinator with three cached payloads. *)
Lemma X17_cached_coordinator_calls_nothing_witness :
  fst (Coordinator.CrawlAll Coordinator.marshal_text
         Coordinator.cached_and_paused Coordinator.same_answers)
  = Coordinator.cached_and_paused.
Proof.
  refine (proj1 (X17_cached_coordinator_calls_nothing Coordinator.marshal_text
                   Coordinator.cached_and_paused Coordinator.same_answers _)).
  repeat split.
Defined.

(** X21 on three failures among five requests. *)
Lemma X21_trip_threshold_witness :
  Breaker.ReadyToTrip (Breaker.mkCounts 5 3) = true.
Proof.
  destruct (X21_trip_threshold (Breaker.mkCounts 5 3)) as (H & _).
  - vm_compute. split; discriminate.
  - apply H. vm_compute. split; discriminate.
Defined.
